(** * TTLStore: a time-to-live overlay on a key/value string store

    Shallow embedding of [src/mod.ts].

    - The underlying [Storage] object is a finite map from strings to
      strings that every method threads through explicitly; its methods are
      taken not to fail.
    - [Date.now()] is the integer argument [now] of each method: one reading
      per call of the facade, as under the fake clock of the test suite.
    - JavaScript numbers are modelled on the values a millisecond clock
      produces: the integers, extended with [NaN] and the two infinities,
      printed in decimal.  Numbers with a fraction part, hence TTLs that are
      not a whole number of seconds, are outside the theorems; so is the
      rounding of floating-point arithmetic.  The module [Fractional] runs
      the functions that write the records on expirations with a fraction
      digit, where [toFixed()] rounds.
    - [Number(s)] on a string is a parameter (class [NumberParser]), known
      only to read back what the template literal prints.
    - [JSON.stringify] and [JSON.parse] are parameters (class [JSON]); a
      small codec instantiates them where the model is run.
    - The object literal that [$list] fills is a map from property names to
      numbers in which the name [__proto__] never becomes a property.
    - Strings are sequences of 8-bit characters. *)

From Stdlib Require Import ZArith String Ascii DecimalString DecimalN DecimalPos.
From stdpp Require Import gmap strings list fin_maps.

Open Scope Z_scope.

(** ** JavaScript strings *)

Module JSString.

(** [s.indexOf(c)] for a one-character needle: the first position, or -1. *)
Fixpoint indexOf (c : ascii) (s : string) : Z :=
  match s with
  | EmptyString => -1
  | String a r =>
      if Ascii.eqb a c then 0
      else let i := indexOf c r in if i <? 0 then -1 else i + 1
  end.

Fixpoint take (n : nat) (s : string) : string :=
  match n, s with
  | S m, String a r => String a (take m r)
  | _, _ => EmptyString
  end.

Fixpoint drop (n : nat) (s : string) : string :=
  match n, s with
  | S m, String _ r => drop m r
  | _, _ => s
  end.

(** [s.slice(b, e)] and [s.slice(b)]; every call site passes indices that
    are not negative. *)
Definition slice (b e : Z) (s : string) : string :=
  take (Z.to_nat e - Z.to_nat b) (drop (Z.to_nat b) s).

Definition slice_from (b : Z) (s : string) : string :=
  drop (Z.to_nat b) s.

Fixpoint startsWith (p s : string) : bool :=
  match p, s with
  | EmptyString, _ => true
  | String a p', String b s' => Ascii.eqb a b && startsWith p' s'
  | String _ _, EmptyString => false
  end.

Definition str_length (s : string) : Z := Z.of_nat (String.length s).

(** Every character of the string satisfies [P]. *)
Fixpoint all_chars (P : ascii → bool) (s : string) : bool :=
  match s with
  | EmptyString => true
  | String a r => P a && all_chars P r
  end.

End JSString.

Import JSString.

(** ** JavaScript numbers *)

Inductive number : Type :=
  | NaN
  | NegInf
  | Fin (z : Z)
  | PosInf.

Definition isNaN (x : number) : bool :=
  match x with NaN => true | _ => false end.

(** [x === y] on numbers: [NaN] equals nothing. *)
Definition num_eqb (x y : number) : bool :=
  match x, y with
  | Fin a, Fin b => a =? b
  | PosInf, PosInf | NegInf, NegInf => true
  | _, _ => false
  end.

(** [x > y]: false as soon as one side is [NaN]. *)
Definition num_gtb (x y : number) : bool :=
  match x, y with
  | NaN, _ | _, NaN => false
  | PosInf, PosInf => false
  | PosInf, _ => true
  | _, PosInf => false
  | NegInf, _ => false
  | Fin _, NegInf => true
  | Fin a, Fin b => b <? a
  end.

Definition num_ltb (x y : number) : bool := num_gtb y x.

(** [x <= y] as a proposition, for statements. *)
Definition num_le (x y : number) : Prop :=
  match x, y with
  | NaN, _ | _, NaN => False
  | NegInf, _ => True
  | _, PosInf => True
  | Fin a, Fin b => a <= b
  | _, _ => False
  end.

Definition num_neg (x : number) : number :=
  match x with
  | NaN => NaN
  | NegInf => PosInf
  | PosInf => NegInf
  | Fin z => Fin (- z)
  end.

Definition num_add (x y : number) : number :=
  match x, y with
  | NaN, _ | _, NaN => NaN
  | PosInf, NegInf | NegInf, PosInf => NaN
  | PosInf, _ | _, PosInf => PosInf
  | NegInf, _ | _, NegInf => NegInf
  | Fin a, Fin b => Fin (a + b)
  end.

Definition num_sgn (x : number) : Z :=
  match x with
  | NaN => 0
  | NegInf => -1
  | PosInf => 1
  | Fin z => Z.sgn z
  end.

Definition num_mul (x y : number) : number :=
  match x, y with
  | NaN, _ | _, NaN => NaN
  | Fin a, Fin b => Fin (a * b)
  | _, _ =>
      match num_sgn x * num_sgn y with
      | 0 => NaN
      | Zpos _ => PosInf
      | Zneg _ => NegInf
      end
  end.

(** [x || Infinity]: zero and [NaN] are falsy. *)
Definition or_Infinity (x : number) : number :=
  match x with
  | NaN | Fin 0 => PosInf
  | _ => x
  end.

(** Template-literal conversion [`${x}`], in plain decimal digits: the
    exponent form that JavaScript prints from 1e21 on is beyond the clock
    values that the model is about. *)
Definition number_to_string (x : number) : string :=
  match x with
  | NaN => "NaN"
  | PosInf => "Infinity"
  | NegInf => "-Infinity"
  | Fin z => NilEmpty.string_of_int (Z.to_int z)
  end.

(** [x.toFixed()]: no fraction digits.  On the numbers of this model, which
    are whole, the rounding it performs has nothing to round;
    [Fractional.toFixed] is the function on numbers that are not. *)
Definition toFixed (x : number) : string := number_to_string x.

Definition is_digit (a : ascii) : bool :=
  match a with
  | "0"%char | "1"%char | "2"%char | "3"%char | "4"%char | "5"%char
  | "6"%char | "7"%char | "8"%char | "9"%char => true
  | _ => false
  end.

Definition is_space (a : ascii) : bool :=
  match a with
  | " "%char | "009"%char | "010"%char | "011"%char | "012"%char
  | "013"%char => true
  | _ => false
  end.

Fixpoint trim_start (sp : ascii → bool) (s : string) : string :=
  match s with
  | EmptyString => EmptyString
  | String a r => if sp a then trim_start sp r else s
  end.

Fixpoint trim_end (sp : ascii → bool) (s : string) : string :=
  match s with
  | EmptyString => EmptyString
  | String a r =>
      match trim_end sp r with
      | EmptyString => if sp a then EmptyString else String a EmptyString
      | r' => String a r'
      end
  end.

Definition trim (sp : ascii → bool) (s : string) : string :=
  trim_end sp (trim_start sp s).

Definition unsigned_of_string (s : string) : number :=
  if String.eqb s "Infinity" then PosInf
  else match s with
       | EmptyString => NaN
       | _ => match NilEmpty.uint_of_string s with
              | Some d => Fin (Z.of_uint d)
              | None => NaN
              end
       end.

(** [Number(s)] on a string is a parameter of the development.  The one
    property of it that the module is verified from is that it reads back
    what the template literal prints; what it makes of any other text
    (literals with a fraction part, an exponent or a radix prefix, padding
    with white space, plain words) is left to the instance, so that a
    hypothesis such as [Number_of_string t = NaN] is a hypothesis on what
    [Number(t)] is and never a consequence of this file's reading of [t]. *)
Class NumberParser := {
  Number_of_string : string → number;
  Number_of_string_to_string :
    ∀ x : number, Number_of_string (number_to_string x) = x
}.

(** The reading used where the model is run on concrete stores: surrounding
    ASCII white space is skipped, the empty string is zero, then an optional
    sign and decimal digits or [Infinity]; any other text reads as [NaN].
    It is [Number(s)] on the texts of the examples, which are of that
    form or plain words. *)
Definition Number_of_decimal (s : string) : number :=
  match trim is_space s with
  | EmptyString => Fin 0
  | String "+"%char r => unsigned_of_string r
  | String "-"%char r => num_neg (unsigned_of_string r)
  | t => unsigned_of_string t
  end.

(** [Number(v)] for [v : string | null]; [Number(null)] is zero. *)
Definition Number_of `{!NumberParser} (v : option string) : number :=
  match v with
  | None => Fin 0
  | Some s => Number_of_string s
  end.

(** ** The underlying store ([StorePartial])

    The five members are total functions on the content of the store: a
    store whose methods throw, which would make [getNext] and [clean] throw
    as well, is not modelled. *)

Module Storage.

Definition length (s : gmap string string) : nat := size s.

Definition getItem (k : string) (s : gmap string string) : option string :=
  s !! k.

Definition key (i : nat) (s : gmap string string) : option string :=
  (map_to_list s).*1 !! i.

Definition removeItem (k : string) (s : gmap string string)
  : gmap string string := delete k s.

Definition setItem (k v : string) (s : gmap string string)
  : gmap string string := <[k:=v]> s.

End Storage.

(** ** JSON, the pluggable serialisation step *)

Inductive outcome (A : Type) : Type :=
  | Returned (a : A)
  | Thrown.
Arguments Returned {A} a.
Arguments Thrown {A}.

(** [JSON_stringify v] is the text that the template literal of [$set]
    receives, [Thrown] when [JSON.stringify] throws; [JSON_parse] is
    [JSON.parse], [Thrown] when it throws. *)
Class JSON (value : Type) := {
  null : value;
  JSON_stringify : value → outcome string;
  JSON_parse : string → outcome value
}.

(** ** The module *)

(** The assignment [data[key] = n] on the object literal [data] of [$list],
    whose own properties are what [Object.entries] enumerates.  The name
    [__proto__] is the accessor that the object inherits from
    [Object.prototype] (ECMAScript, annex B), and its setter ignores a
    number: that assignment creates no own property.  Every other name
    becomes an own property. *)
Definition record_assign (key : string) (n : number)
    (data : gmap string number) : gmap string number :=
  if String.eqb key "__proto__" then data else <[key := n]> data.

Definition checkFresh (expireAt : number) (now : Z) : bool :=
  if num_eqb expireAt (Fin (-1)) then true
  else if isNaN expireAt then false
  else num_gtb expireAt (Fin now).

Record entry : Type := { expireAt : number; item : option string }.

Definition NULL_DATA : entry := {| expireAt := Fin 1; item := None |}.

Section TTLStore.

Context {parser : NumberParser} {value : Type} `{!JSON value}.
Variable name : string.

Definition tryJson (v : option string) : value :=
  match v with
  | None => null
  | Some s =>
      match JSON_parse s with
      | Returned x => x
      | Thrown => null
      end
  end.

Definition makeKey (key : string) : string := name +:+ ":" +:+ key.

Definition makeDataKey (key : string) : string := name +:+ "." +:+ key.

Definition getNext (s : gmap string string) : number :=
  let v := Storage.getItem (makeKey "next") s in
  or_Infinity (Number_of v).

(** [$get] *)
Definition get_ (key : string) (now : Z) (s : gmap string string) : entry :=
  let dataKey := makeDataKey key in
  match Storage.getItem dataKey s with
  | None => NULL_DATA
  | Some EmptyString => NULL_DATA
  | Some v =>
      let index := indexOf ":" v in
      if index <? 1 then NULL_DATA
      else
        let expireAt := Number_of_string (slice 0 index v) in
        if negb (checkFresh expireAt now) then NULL_DATA
        else {| expireAt := expireAt; item := Some (slice_from (index + 1) v) |}
  end.

(** [$set] *)
Definition set_ (key : string) (item : option string) (expireAt : number)
    (now : Z) (s : gmap string string) : gmap string string :=
  let dataKey := makeDataKey key in
  match item with
  | None => Storage.removeItem dataKey s
  | Some it =>
      if negb (checkFresh expireAt now) then Storage.removeItem dataKey s
      else
        let s1 :=
          Storage.setItem dataKey (number_to_string expireAt +:+ ":" +:+ it) s in
        if isNaN expireAt || num_gtb expireAt (getNext s1) then s1
        else Storage.setItem (makeKey "next") (toFixed expireAt) s1
  end.

(** The body of the loop of [$list], [skey] being [store.key(i)]; the
    assignment to the plain object [data] is [record_assign]. *)
Definition list_visit (now : Z) (s : gmap string string)
    (data : gmap string number) (skey : option string) : gmap string number :=
  let prefix := makeDataKey EmptyString in
  match skey with
  | None => data
  | Some sk =>
      if startsWith prefix sk then
        let key := slice_from (str_length prefix) sk in
        record_assign key (expireAt (get_ key now s)) data
      else data
  end.

(** [$list] *)
Definition list_ (now : Z) (s : gmap string string) : gmap string number :=
  foldl (λ data i, list_visit now s data (Storage.key i s)) ∅
    (seq 0 (Storage.length s)).

(** The body of the loop of [clean], over [Object.entries(data)].  The
    order of the entries is immaterial: see [sweep_lookup]. *)
Definition clean_step (now : Z) (s : gmap string string)
    (kv : string * number) : gmap string string :=
  if checkFresh kv.2 now then s else set_ kv.1 None (Fin (-1)) now s.

(** The scan of [clean], behind its fast path. *)
Definition sweep (now : Z) (s : gmap string string) : gmap string string :=
  foldl (clean_step now) s (map_to_list (list_ now s)).

Definition clean (now : Z) (s : gmap string string) : gmap string string :=
  let next := getNext s in
  if num_gtb next (Fin now) then s else sweep now s.

Definition setExpireAt (key : string) (expireAt : number) (now : Z)
    (s : gmap string string) : gmap string string :=
  let it := item (get_ key now s) in
  set_ key it expireAt now s.

Definition setExpire (key : string) (expire : number) (now : Z)
    (s : gmap string string) : gmap string string :=
  if num_ltb expire (Fin 0) then setExpireAt key (Fin (-1)) now s
  else setExpireAt key (num_add (Fin now) (num_mul expire (Fin 1000))) now s.

Definition getItem (key : string) (now : Z) (s : gmap string string)
  : value * gmap string string :=
  let s' := clean now s in
  (tryJson (item (get_ key now s')), s').

Definition removeItem (key : string) (now : Z) (s : gmap string string)
  : gmap string string :=
  set_ key None (Fin (-1)) now s.

Definition setItemUntil (key : string) (v : value) (expireAt : number)
    (now : Z) (s : gmap string string) : gmap string string :=
  match JSON_stringify v with
  | Returned it => set_ key (Some it) expireAt now s
  | Thrown => s
  end.

Definition setItem (key : string) (v : value) (expire : number) (now : Z)
    (s : gmap string string) : gmap string string :=
  if num_ltb expire (Fin 0) then setItemUntil key v (Fin (-1)) now s
  else setItemUntil key v (num_add (Fin now) (num_mul expire (Fin 1000))) now s.

Definition updateItem (key : string) (v : value) (now : Z)
    (s : gmap string string) : gmap string string :=
  let e := expireAt (get_ key now s) in
  setItemUntil key v e now s.

(** The constructor runs one [clean]. *)
Definition construct (now : Z) (s : gmap string string) : gmap string string :=
  clean now s.

End TTLStore.

(** ** The facade as a labelled transition system *)

Inductive op (value : Type) : Type :=
  | SetItem (key : string) (v : value) (expire : number)
  | SetItemUntil (key : string) (v : value) (expireAt : number)
  | UpdateItem (key : string) (v : value)
  | SetExpire (key : string) (expire : number)
  | SetExpireAt (key : string) (expireAt : number)
  | RemoveItem (key : string)
  | GetItem (key : string)
  | Clean.
Arguments SetItem {value} key v expire.
Arguments SetItemUntil {value} key v expireAt.
Arguments UpdateItem {value} key v.
Arguments SetExpire {value} key expire.
Arguments SetExpireAt {value} key expireAt.
Arguments RemoveItem {value} key.
Arguments GetItem {value} key.
Arguments Clean {value}.

Section Runs.

Context {parser : NumberParser} {value : Type} `{!JSON value}.
Variable name : string.

(** The store after one call made when the clock reads [now]. *)
Definition exec (o : op value) (now : Z) (s : gmap string string)
  : gmap string string :=
  match o with
  | SetItem k v expire => setItem name k v expire now s
  | SetItemUntil k v e => setItemUntil name k v e now s
  | UpdateItem k v => updateItem name k v now s
  | SetExpire k expire => setExpire name k expire now s
  | SetExpireAt k e => setExpireAt name k e now s
  | RemoveItem k => removeItem name k now s
  | GetItem k => (getItem name k now s).2
  | Clean => clean name now s
  end.

(** A sequence of calls, each with the clock reading at which it is made. *)
Definition run (calls : list (Z * op value)) (s : gmap string string)
  : gmap string string :=
  foldl (λ st c, exec c.2 c.1 st) s calls.

(** No call is made before the epoch. *)
Definition clock_ok (calls : list (Z * op value)) : bool :=
  forallb (λ c, 0 <=? c.1) calls.

(** The call writes the entry of [k]; [getItem] and [clean] write none. *)
Definition writes_key (k : string) (o : op value) : bool :=
  match o with
  | SetItem k' _ _ | SetItemUntil k' _ _ | UpdateItem k' _
  | SetExpire k' _ | SetExpireAt k' _ | RemoveItem k' => bool_decide (k' = k)
  | GetItem _ | Clean => false
  end.

Definition leaves_key (k : string) (calls : list (Z * op value)) : bool :=
  forallb (λ c, negb (writes_key k c.2)) calls.

(** The raw sentinel record. *)
Definition sentinel (s : gmap string string) : option string :=
  Storage.getItem (makeKey name "next") s.

(** Key [key] holds an entry that reads as fresh at [now], expiring at [e]. *)
Definition fresh_record (s : gmap string string) (now : Z) (key : string)
    (e : number) : Prop :=
  ∃ it, get_ name key now s = {| expireAt := e; item := Some it |}.

(** The bound of the sentinel: when the sentinel record is present, its
    numeric value is at most the expiration of every fresh entry. *)
Definition sentinel_lower_bound (s : gmap string string) (now : Z) : Prop :=
  ∀ sv key e,
    sentinel s = Some sv → fresh_record s now key e →
    num_le (Number_of_string sv) e.

(** The expiration a raw record decodes to, when it has its separator. *)
Definition decode_expireAt (raw : string) : option number :=
  let index := indexOf ":" raw in
  if index <? 1 then None else Some (Number_of_string (slice 0 index raw)).

Definition num_leb (x y : number) : bool :=
  negb (isNaN x) && negb (isNaN y) && negb (num_gtb x y).

(** A raw record of the namespace is covered by [next] when its expiration,
    if it decodes to a number, is not below [next]. *)
Definition covered (next : number) (sk raw : string) : bool :=
  if startsWith (makeDataKey name EmptyString) sk then
    match decode_expireAt raw with
    | Some e => isNaN e || num_leb next e
    | None => true
    end
  else true.

(** The sentinel record, when present, holds a number that [getNext] reads
    back as such (neither zero nor [NaN]). *)
Definition sentinel_wf (s : gmap string string) : bool :=
  match sentinel s with
  | None => true
  | Some sv =>
      match Number_of_string sv with
      | NaN | Fin 0 => false
      | _ => true
      end
  end.

(** The store is consistent: what [getNext] returns is a lower bound of the
    expiration of every decodable record of the namespace. *)
Definition consistent (s : gmap string string) : bool :=
  sentinel_wf s
  && forallb (λ kv, covered (getNext name s) kv.1 kv.2) (map_to_list s).

(** The raw key [sk] is a data record of the namespace that the scan of
    [clean] enumerates and finds not fresh at [now]. *)
Definition stale (now : Z) (s : gmap string string) (sk : string) : bool :=
  let key := slice_from (str_length (makeDataKey name EmptyString)) sk in
  startsWith (makeDataKey name EmptyString) sk
  && (negb (String.eqb key "__proto__")
      && negb (checkFresh (expireAt (get_ name key now s)) now)).



(** The data record of [key] is missing. *)
Definition record_absent (s : gmap string string) (key : string) : Prop :=
  s !! makeDataKey name key = None.

(** The data record of [key] has its separator and an expiration that reads
    as a number, and that expiration has passed at [now]. *)
Definition record_expired (s : gmap string string) (now : Z) (key : string)
  : Prop :=
  ∃ raw e, s !! makeDataKey name key = Some raw
    ∧ decode_expireAt raw = Some e ∧ isNaN e = false
    ∧ checkFresh e now = false.

(** The data record of [key] is there but its expiration part is malformed:
    no colon at index 1 or later, or an expiration that is not a number. *)
Definition record_malformed (s : gmap string string) (key : string) : Prop :=
  ∃ raw, s !! makeDataKey name key = Some raw
    ∧ (indexOf ":" raw < 1 ∨ decode_expireAt raw = Some NaN).

(** The data record of [key] is there but [JSON.parse] rejects its payload. *)
Definition record_undecodable (s : gmap string string) (key : string)
  : Prop :=
  ∃ raw, s !! makeDataKey name key = Some raw
    ∧ JSON_parse (slice_from (indexOf ":" raw + 1) raw) = Thrown.

(** A corrupted record: malformed, or with a payload that fails to decode. *)
Definition record_corrupted (s : gmap string string) (key : string) : Prop :=
  record_malformed s key ∨ record_undecodable s key.

End Runs.

(** ** Expirations with a fraction part

    The development takes expirations to be whole numbers of milliseconds,
    on which [toFixed()] has nothing to round.  This module embeds the
    functions that read and write the records over numbers with one decimal
    digit after the point: enough to run [$set] on an expiration that is not
    whole, and to see what the rounding of [toFixed()] does to the
    sentinel. *)

Module Fractional.

(** The finite values are the multiples of one tenth: [Fin t] is [t / 10]. *)
Inductive number : Type :=
  | NaN
  | NegInf
  | Fin (tenths : Z)
  | PosInf.

(** The number that an integer is. *)
Definition of_Z (z : Z) : number := Fin (10 * z).

Definition isNaN (x : number) : bool :=
  match x with NaN => true | _ => false end.

Definition num_eqb (x y : number) : bool :=
  match x, y with
  | Fin a, Fin b => a =? b
  | PosInf, PosInf | NegInf, NegInf => true
  | _, _ => false
  end.

Definition num_gtb (x y : number) : bool :=
  match x, y with
  | NaN, _ | _, NaN => false
  | PosInf, PosInf => false
  | PosInf, _ => true
  | _, PosInf => false
  | NegInf, _ => false
  | Fin _, NegInf => true
  | Fin a, Fin b => b <? a
  end.

Definition or_Infinity (x : number) : number :=
  match x with
  | NaN | Fin 0 => PosInf
  | _ => x
  end.

Definition digits (z : Z) : string := NilEmpty.string_of_int (Z.to_int z).

Definition sign (t : Z) : string :=
  if t <? 0 then "-" else EmptyString.

(** Template-literal conversion: the shortest decimal, with its fraction
    digit when there is one. *)
Definition number_to_string (x : number) : string :=
  match x with
  | NaN => "NaN"
  | PosInf => "Infinity"
  | NegInf => "-Infinity"
  | Fin t =>
      let m := Z.abs t in
      if m mod 10 =? 0 then sign t +:+ digits (m / 10)
      else sign t +:+ digits (m / 10) +:+ "." +:+ digits (m mod 10)
  end.

(** [x.toFixed()]: no fraction digit, rounded to the nearest integer, a
    half going away from zero. *)
Definition toFixed (x : number) : string :=
  match x with
  | NaN => "NaN"
  | PosInf => "Infinity"
  | NegInf => "-Infinity"
  | Fin t => sign t +:+ digits ((Z.abs t + 5) / 10)
  end.

(** The integer part of a literal, in tenths; it may be empty. *)
Definition tenths_of_digits (s : string) : option Z :=
  (λ d, 10 * Z.of_uint d) <$> NilEmpty.uint_of_string s.

(** The fraction part of a literal, in tenths: empty, or one digit. *)
Definition tenth_of_digit (s : string) : option Z :=
  match s with
  | EmptyString => Some 0
  | String a EmptyString => Z.of_uint <$> NilEmpty.uint_of_string s
  | _ => None
  end.

(** An unsigned decimal literal with at most one fraction digit, or
    [Infinity].  A literal has a digit on one side of its point at least. *)
Definition unsigned_of_string (s : string) : number :=
  if String.eqb s "Infinity" then PosInf
  else
    let dot := indexOf "." s in
    if dot <? 0 then
      match s, tenths_of_digits s with
      | String _ _, Some t => Fin t
      | _, _ => NaN
      end
    else
      let ip := slice 0 dot s in
      let fp := slice_from (dot + 1) s in
      match ip +:+ fp, tenths_of_digits ip, tenth_of_digit fp with
      | String _ _, Some t, Some d => Fin (t + d)
      | _, _, _ => NaN
      end.

Definition num_neg (x : number) : number :=
  match x with
  | NaN => NaN
  | NegInf => PosInf
  | PosInf => NegInf
  | Fin t => Fin (- t)
  end.

(** [Number(s)] on the texts that this module prints; a text with more
    fraction digits, an exponent or a radix prefix is outside its domain
    and reads as [NaN]. *)
Definition Number_of_string (s : string) : number :=
  match trim is_space s with
  | EmptyString => Fin 0
  | String "+"%char r => unsigned_of_string r
  | String "-"%char r => num_neg (unsigned_of_string r)
  | t => unsigned_of_string t
  end.

Definition Number_of (v : option string) : number :=
  match v with
  | None => Fin 0
  | Some s => Number_of_string s
  end.

Definition checkFresh (expireAt : number) (now : Z) : bool :=
  if num_eqb expireAt (of_Z (-1)) then true
  else if isNaN expireAt then false
  else num_gtb expireAt (of_Z now).

Record entry : Type := { expireAt : number; item : option string }.

Definition NULL_DATA : entry := {| expireAt := of_Z 1; item := None |}.

Section TTLStore.

Context {value : Type} `{!JSON value}.
Variable name : string.

Definition getNext (s : gmap string string) : number :=
  let v := Storage.getItem (makeKey name "next") s in
  or_Infinity (Number_of v).

(** [$get] *)
Definition get_ (key : string) (now : Z) (s : gmap string string) : entry :=
  let dataKey := makeDataKey name key in
  match Storage.getItem dataKey s with
  | None => NULL_DATA
  | Some EmptyString => NULL_DATA
  | Some v =>
      let index := indexOf ":" v in
      if index <? 1 then NULL_DATA
      else
        let expireAt := Number_of_string (slice 0 index v) in
        if negb (checkFresh expireAt now) then NULL_DATA
        else {| expireAt := expireAt; item := Some (slice_from (index + 1) v) |}
  end.

(** [$set] *)
Definition set_ (key : string) (item : option string) (expireAt : number)
    (now : Z) (s : gmap string string) : gmap string string :=
  let dataKey := makeDataKey name key in
  match item with
  | None => Storage.removeItem dataKey s
  | Some it =>
      if negb (checkFresh expireAt now) then Storage.removeItem dataKey s
      else
        let s1 :=
          Storage.setItem dataKey (number_to_string expireAt +:+ ":" +:+ it) s in
        if isNaN expireAt || num_gtb expireAt (getNext s1) then s1
        else Storage.setItem (makeKey name "next") (toFixed expireAt) s1
  end.

Definition setItemUntil (key : string) (v : value) (expireAt : number)
    (now : Z) (s : gmap string string) : gmap string string :=
  match JSON_stringify v with
  | Returned it => set_ key (Some it) expireAt now s
  | Thrown => s
  end.

End TTLStore.

End Fractional.

(** ** A codec for scalar JSON values

    Enough of [JSON.stringify] and [JSON.parse] to run the model on concrete
    stores: [null], the booleans, integers and strings. *)

Module MiniJSON.

Inductive json : Type :=
  | JNull
  | JBool (b : bool)
  | JNum (z : Z)
  | JStr (s : string).

Definition quote : ascii := "034"%char.
Definition backslash : ascii := "092"%char.

Definition hex_digit (n : nat) : ascii :=
  match String.get n "0123456789abcdef" with
  | Some a => a
  | None => "0"%char
  end.

Definition escape_char (a : ascii) : string :=
  if Ascii.eqb a quote then String backslash (String quote EmptyString)
  else if Ascii.eqb a backslash then String backslash (String backslash EmptyString)
  else if Ascii.eqb a "008" then String backslash "b"
  else if Ascii.eqb a "009" then String backslash "t"
  else if Ascii.eqb a "010" then String backslash "n"
  else if Ascii.eqb a "012" then String backslash "f"
  else if Ascii.eqb a "013" then String backslash "r"
  else if (nat_of_ascii a <? 32)%nat then
    String backslash
      (String "u" (String "0" (String "0"
        (String (hex_digit (nat_of_ascii a / 16))
          (String (hex_digit (nat_of_ascii a mod 16)) EmptyString)))))
  else String a EmptyString.

Fixpoint escape (s : string) : string :=
  match s with
  | EmptyString => EmptyString
  | String a r => escape_char a +:+ escape r
  end.

Definition stringify (v : json) : outcome string :=
  Returned
    match v with
    | JNull => "null"
    | JBool true => "true"
    | JBool false => "false"
    | JNum z => number_to_string (Fin z)
    | JStr s => String quote (escape s +:+ String quote EmptyString)
    end.

Definition hex_value (a : ascii) : option nat :=
  let n := nat_of_ascii a in
  if (48 <=? n)%nat && (n <=? 57)%nat then Some (n - 48)%nat
  else if (97 <=? n)%nat && (n <=? 102)%nat then Some (n - 87)%nat
  else if (65 <=? n)%nat && (n <=? 70)%nat then Some (n - 55)%nat
  else None.

(** The body of a string literal, after its opening quote.  A [\u] escape
    is accepted for code units below 256. *)
Fixpoint unescape (s : string) : option string :=
  match s with
  | EmptyString => None
  | String a r =>
      if Ascii.eqb a quote then
        match r with EmptyString => Some EmptyString | _ => None end
      else if Ascii.eqb a backslash then
        match r with
        | String b r' =>
            let simple (c : ascii) := String c <$> unescape r' in
            if Ascii.eqb b quote then simple quote
            else if Ascii.eqb b backslash then simple backslash
            else if Ascii.eqb b "/" then simple "/"%char
            else if Ascii.eqb b "b" then simple "008"%char
            else if Ascii.eqb b "t" then simple "009"%char
            else if Ascii.eqb b "n" then simple "010"%char
            else if Ascii.eqb b "f" then simple "012"%char
            else if Ascii.eqb b "r" then simple "013"%char
            else if Ascii.eqb b "u" then
              match r' with
              | String "0" (String "0" (String h (String l r''))) =>
                  match hex_value h, hex_value l with
                  | Some x, Some y =>
                      String (ascii_of_nat (16 * x + y)) <$> unescape r''
                  | _, _ => None
                  end
              | _ => None
              end
            else None
        | EmptyString => None
        end
      else if (nat_of_ascii a <? 32)%nat then None
      else String a <$> unescape r
  end.

Definition is_json_space (a : ascii) : bool :=
  match a with
  | " "%char | "009"%char | "010"%char | "013"%char => true
  | _ => false
  end.

(** An integer literal: no leading zero, no bare sign. *)
Definition parse_integer (s : string) : outcome json :=
  let digits := match s with String "-" r => r | _ => s end in
  match digits with
  | EmptyString => Thrown
  | String "0" (String _ _) => Thrown
  | _ =>
      match NilEmpty.uint_of_string digits with
      | Some d =>
          Returned (JNum (match s with
                          | String "-" _ => - Z.of_uint d
                          | _ => Z.of_uint d
                          end))
      | None => Thrown
      end
  end.

Definition parse (s : string) : outcome json :=
  let t := trim is_json_space s in
  if String.eqb t "null" then Returned JNull
  else if String.eqb t "true" then Returned (JBool true)
  else if String.eqb t "false" then Returned (JBool false)
  else match t with
       | String a r =>
           if Ascii.eqb a quote then
             match unescape r with
             | Some body => Returned (JStr body)
             | None => Thrown
             end
           else parse_integer t
       | EmptyString => Thrown
       end.

#[export] Instance codec : JSON json :=
  {| null := JNull; JSON_stringify := stringify; JSON_parse := parse |}.

End MiniJSON.

Import MiniJSON.

(** ** Values that [JSON.stringify] may reject

    The scalar values, and one value on which [JSON.stringify] throws, as
    it does on a cyclic structure. *)

Module CyclicJSON.

Inductive jsvalue : Type :=
  | Plain (j : json)
  | Cyclic.

Definition stringify (v : jsvalue) : outcome string :=
  match v with
  | Plain j => MiniJSON.stringify j
  | Cyclic => Thrown
  end.

Definition parse (s : string) : outcome jsvalue :=
  match MiniJSON.parse s with
  | Returned j => Returned (Plain j)
  | Thrown => Thrown
  end.

#[global] Instance codec : JSON jsvalue :=
  {| null := Plain JNull; JSON_stringify := stringify; JSON_parse := parse |}.

End CyclicJSON.


(** * Properties *)

(** ** Strings *)

Section StringFacts.

Lemma append_nil (s : string) : EmptyString +:+ s = s.
Proof. reflexivity. Qed.

Lemma append_cons (x : ascii) (a b : string) :
  String x a +:+ b = String x (a +:+ b).
Proof. reflexivity. Qed.

Lemma append_assoc (a b c : string) : (a +:+ b) +:+ c = a +:+ (b +:+ c).
Proof.
  induction a as [|x a IH]; [done |]. rewrite !append_cons. by f_equal.
Qed.

Lemma length_append (a b : string) :
  String.length (a +:+ b) = (String.length a + String.length b)%nat.
Proof.
  induction a as [|x a IH]; [done |]. rewrite append_cons. simpl. by f_equal.
Qed.

Lemma append_inj_l (p a b : string) : p +:+ a = p +:+ b → a = b.
Proof.
  induction p as [|x p IH]; [done |]. rewrite !append_cons. intros [= H]. auto.
Qed.

Lemma startsWith_append (p s : string) : startsWith p (p +:+ s) = true.
Proof.
  induction p as [|x p IH]; [done |]. rewrite append_cons. simpl.
  by rewrite Ascii.eqb_refl, IH.
Qed.

Lemma drop_append (p s : string) : drop (String.length p) (p +:+ s) = s.
Proof.
  induction p as [|x p IH]; [by destruct s |]. by rewrite append_cons.
Qed.

Lemma take_append (p s : string) : take (String.length p) (p +:+ s) = p.
Proof.
  induction p as [|x p IH]; [by destruct s |].
  rewrite append_cons. simpl. by f_equal.
Qed.

Lemma startsWith_split (p s : string) :
  startsWith p s = true → s = p +:+ drop (String.length p) s.
Proof.
  revert s. induction p as [|x p IH]; intros [|y s]; simpl; try done.
  intros [Hxy Hp]%andb_true_iff. apply Ascii.eqb_eq in Hxy as ->.
  rewrite append_cons. f_equal. by apply IH.
Qed.

Lemma all_chars_impl (P Q : ascii → bool) (s : string) :
  (∀ a, P a = true → Q a = true) →
  all_chars P s = true → all_chars Q s = true.
Proof.
  intros HPQ. induction s as [|x s IH]; simpl; [done |].
  intros [Hx Hs]%andb_true_iff. by rewrite (HPQ _ Hx), IH.
Qed.

Lemma indexOf_append (c : ascii) (p r : string) :
  all_chars (λ a, negb (Ascii.eqb a c)) p = true →
  indexOf c (p +:+ String c r) = Z.of_nat (String.length p).
Proof.
  induction p as [|x p IH].
  - intros _. rewrite append_nil. simpl. by rewrite Ascii.eqb_refl.
  - rewrite append_cons. simpl.
    intros [Hx Hp]%andb_true_iff. apply negb_true_iff in Hx. rewrite Hx.
    rewrite (IH Hp).
    destruct (Z.ltb_spec (Z.of_nat (String.length p)) 0); lia.
Qed.

Lemma trim_start_id (sp : ascii → bool) (s : string) :
  all_chars (λ a, negb (sp a)) s = true → trim_start sp s = s.
Proof.
  destruct s as [|x s]; simpl; [done |].
  intros [Hx _]%andb_true_iff. apply negb_true_iff in Hx. by rewrite Hx.
Qed.

Lemma trim_end_id (sp : ascii → bool) (s : string) :
  all_chars (λ a, negb (sp a)) s = true → trim_end sp s = s.
Proof.
  induction s as [|x s IH]; simpl; [done |].
  intros [Hx Hs]%andb_true_iff. apply negb_true_iff in Hx.
  rewrite (IH Hs), Hx. by destruct s.
Qed.

Lemma trim_id (sp : ascii → bool) (s : string) :
  all_chars (λ a, negb (sp a)) s = true → trim sp s = s.
Proof.
  intros H. unfold trim. rewrite (trim_start_id _ _ H). by apply trim_end_id.
Qed.

Lemma all_chars_append (P : ascii → bool) (a b : string) :
  all_chars P (a +:+ b) = all_chars P a && all_chars P b.
Proof.
  induction a as [|x a IH]; [by rewrite append_nil |].
  rewrite append_cons. simpl. by rewrite IH, andb_assoc.
Qed.

(** A key that holds a colon is not the name [__proto__]. *)
Lemma colon_not_proto (a b : string) : a +:+ ":" +:+ b ≠ "__proto__".
Proof.
  intros H.
  apply (f_equal (all_chars (λ c, negb (Ascii.eqb c ":")))) in H.
  rewrite all_chars_append, append_cons in H. simpl in H.
  by rewrite andb_false_r in H.
Qed.

End StringFacts.

(** ** Numbers and their decimal form *)

Section NumberFacts.

Lemma digits_all_digit (d : Decimal.uint) :
  all_chars is_digit (NilEmpty.string_of_uint d) = true.
Proof. induction d; simpl; auto. Qed.

Lemma is_digit_not_space a : is_digit a = true → negb (is_space a) = true.
Proof. by destruct a as [[] [] [] [] [] [] [] []]. Qed.

Lemma is_digit_not_colon a :
  is_digit a = true → negb (Ascii.eqb a ":") = true.
Proof. by destruct a as [[] [] [] [] [] [] [] []]. Qed.

Lemma unsigned_of_digits (d : Decimal.uint) :
  d ≠ Decimal.Nil →
  unsigned_of_string (NilEmpty.string_of_uint d) = Fin (Z.of_uint d).
Proof.
  intros Hd. unfold unsigned_of_string.
  rewrite NilEmpty.usu.
  destruct d; try done; simpl; done.
Qed.

Lemma Number_of_digits (d : Decimal.uint) :
  d ≠ Decimal.Nil →
  Number_of_decimal (NilEmpty.string_of_uint d) = Fin (Z.of_uint d).
Proof.
  intros Hd. unfold Number_of_decimal.
  rewrite trim_id.
  2:{ eapply all_chars_impl; [apply is_digit_not_space | apply digits_all_digit]. }
  rewrite <- (unsigned_of_digits d Hd).
  destruct d; try done.
Qed.

Lemma Number_of_neg_digits (d : Decimal.uint) :
  d ≠ Decimal.Nil →
  Number_of_decimal (String "-" (NilEmpty.string_of_uint d))
  = Fin (- Z.of_uint d).
Proof.
  intros Hd. unfold Number_of_decimal.
  rewrite trim_id.
  2:{ simpl. eapply all_chars_impl;
        [apply is_digit_not_space | apply digits_all_digit]. }
  by rewrite (unsigned_of_digits d Hd).
Qed.

Lemma Z_of_uint_pos (p : positive) : Z.of_uint (Pos.to_uint p) = Z.pos p.
Proof.
  unfold Z.of_uint. by rewrite DecimalPos.Unsigned.of_to.
Qed.

(** Reading back what the template literal printed gives the number. *)
Lemma Number_of_decimal_to_string (x : number) :
  Number_of_decimal (number_to_string x) = x.
Proof.
  destruct x as [| |z|]; try done.
  destruct z as [|p|p]; [done | |]; simpl.
  - rewrite Number_of_digits; [| apply DecimalPos.Unsigned.to_uint_nonnil].
    by rewrite Z_of_uint_pos.
  - rewrite Number_of_neg_digits; [| apply DecimalPos.Unsigned.to_uint_nonnil].
    by rewrite Z_of_uint_pos.
Qed.

Lemma number_to_string_no_colon (x : number) :
  all_chars (λ a, negb (Ascii.eqb a ":")) (number_to_string x) = true.
Proof.
  destruct x as [| |z|]; try done.
  destruct z as [|p|p]; [done | |]; simpl;
    (eapply all_chars_impl; [apply is_digit_not_colon | apply digits_all_digit]).
Qed.

Lemma number_to_string_length (x : number) :
  (1 <= String.length (number_to_string x))%nat.
Proof.
  destruct x as [| |z|]; simpl; try lia.
  destruct z as [|p|p]; simpl; try lia.
  pose proof (DecimalPos.Unsigned.to_uint_nonnil p) as Hp.
  destruct (Pos.to_uint p); simpl; try done; lia.
Qed.

End NumberFacts.

(** ** Composite keys *)

Section KeyFacts.

Variable name : string.

Lemma makeDataKey_prefix (key : string) :
  makeDataKey name key = makeDataKey name EmptyString +:+ key.
Proof.
  unfold makeDataKey. by rewrite append_assoc.
Qed.

Lemma makeDataKey_inj (k1 k2 : string) :
  makeDataKey name k1 = makeDataKey name k2 → k1 = k2.
Proof.
  unfold makeDataKey. intros H%append_inj_l.
  by apply (append_inj_l ".") in H.
Qed.

Lemma makeDataKey_ne_makeKey (k1 k2 : string) :
  makeDataKey name k1 ≠ makeKey name k2.
Proof.
  unfold makeDataKey, makeKey. intros H%append_inj_l. discriminate H.
Qed.

Lemma startsWith_makeDataKey (key : string) :
  startsWith (makeDataKey name EmptyString) (makeDataKey name key) = true.
Proof. rewrite (makeDataKey_prefix key). apply startsWith_append. Qed.

Lemma slice_from_makeDataKey (key : string) :
  slice_from (str_length (makeDataKey name EmptyString)) (makeDataKey name key)
  = key.
Proof.
  unfold slice_from, str_length. rewrite Nat2Z.id.
  rewrite (makeDataKey_prefix key). apply drop_append.
Qed.

Lemma startsWith_data_key (sk : string) :
  startsWith (makeDataKey name EmptyString) sk = true →
  sk = makeDataKey name
         (slice_from (str_length (makeDataKey name EmptyString)) sk).
Proof.
  intros H%startsWith_split. rewrite makeDataKey_prefix.
  unfold slice_from, str_length. by rewrite Nat2Z.id.
Qed.

Lemma startsWith_makeKey (k : string) :
  startsWith (makeDataKey name EmptyString) (makeKey name k) = false.
Proof.
  destruct (startsWith _ _) eqn:E; [| done].
  apply startsWith_data_key in E. symmetry in E.
  by apply makeDataKey_ne_makeKey in E.
Qed.

End KeyFacts.

(** ** The entry codec: [$get] and [$set] *)

Section CodecFacts.

Context {parser : NumberParser}.
Variable name : string.

(** The text of the never-expiring mark reads as -1. *)
Lemma Number_of_minus_one : Number_of_string "-1" = Fin (-1).
Proof. exact (Number_of_string_to_string (Fin (-1))). Qed.

Lemma raw_written (e : number) (it : string) :
  let raw := number_to_string e +:+ ":" +:+ it in
  indexOf ":" raw = Z.of_nat (String.length (number_to_string e))
  ∧ slice 0 (indexOf ":" raw) raw = number_to_string e
  ∧ slice_from (indexOf ":" raw + 1) raw = it.
Proof.
  intros raw. unfold raw.
  assert (Hi : indexOf ":" (number_to_string e +:+ ":" +:+ it)
               = Z.of_nat (String.length (number_to_string e))).
  { change (":" +:+ it) with (String ":" it).
    apply indexOf_append, number_to_string_no_colon. }
  rewrite Hi. split; [done |]. split.
  - unfold slice. rewrite Nat2Z.id. simpl. rewrite Nat.sub_0_r.
    apply take_append.
  - unfold slice_from.
    replace (Z.to_nat (Z.of_nat (String.length (number_to_string e)) + 1))
      with (String.length (number_to_string e +:+ ":")).
    + rewrite <- append_assoc. apply drop_append.
    + rewrite length_append. simpl. lia.
Qed.

Lemma decode_written (e : number) (it : string) :
  decode_expireAt (number_to_string e +:+ ":" +:+ it) = Some e.
Proof.
  unfold decode_expireAt.
  destruct (raw_written e it) as (Hi & Hs & _). rewrite Hs, Hi.
  pose proof (number_to_string_length e).
  destruct (Z.ltb_spec (Z.of_nat (String.length (number_to_string e))) 1);
    [lia |].
  by rewrite Number_of_string_to_string.
Qed.

(** [$get] looks at the store through the data record of its key only. *)
Lemma get__ext (key : string) (now : Z) (s1 s2 : gmap string string) :
  s1 !! makeDataKey name key = s2 !! makeDataKey name key →
  get_ name key now s1 = get_ name key now s2.
Proof. unfold get_, Storage.getItem. by intros ->. Qed.

Lemma get__absent (key : string) (now : Z) (s : gmap string string) :
  s !! makeDataKey name key = None → get_ name key now s = NULL_DATA.
Proof. unfold get_, Storage.getItem. by intros ->. Qed.

(** [$get] in terms of the decoded expiration. *)
Lemma get__decode (key : string) (now : Z) (s : gmap string string)
    (raw : string) :
  s !! makeDataKey name key = Some raw →
  get_ name key now s =
    match decode_expireAt raw with
    | Some e =>
        if checkFresh e now
        then {| expireAt := e;
                item := Some (slice_from (indexOf ":" raw + 1) raw) |}
        else NULL_DATA
    | None => NULL_DATA
    end.
Proof.
  unfold get_, Storage.getItem, decode_expireAt. intros ->.
  destruct raw as [|a r]; [done |].
  destruct (indexOf ":" (String a r) <? 1); [done |].
  by destruct (checkFresh _ now).
Qed.

Lemma get__written (key : string) (now : Z) (s : gmap string string)
    (e : number) (it : string) :
  s !! makeDataKey name key = Some (number_to_string e +:+ ":" +:+ it) →
  get_ name key now s =
    if checkFresh e now then {| expireAt := e; item := Some it |}
    else NULL_DATA.
Proof.
  intros H. rewrite (get__decode _ _ _ _ H), decode_written.
  destruct (raw_written e it) as (_ & _ & ->). done.
Qed.

(** The two shapes of what [$get] returns. *)
Lemma get__cases (key : string) (now : Z) (s : gmap string string) :
  get_ name key now s = NULL_DATA
  ∨ ∃ raw e, s !! makeDataKey name key = Some raw
      ∧ decode_expireAt raw = Some e ∧ checkFresh e now = true
      ∧ get_ name key now s
        = {| expireAt := e;
             item := Some (slice_from (indexOf ":" raw + 1) raw) |}.
Proof.
  destruct (s !! makeDataKey name key) as [raw|] eqn:Hraw.
  - rewrite (get__decode _ _ _ _ Hraw).
    destruct (decode_expireAt raw) as [e|] eqn:He; [| by left].
    destruct (checkFresh e now) eqn:Hf; [| by left].
    right. by exists raw, e.
  - left. by apply get__absent.
Qed.

Lemma getNext_insert_data (key v : string) (s : gmap string string) :
  getNext name (<[makeDataKey name key := v]> s) = getNext name s.
Proof.
  unfold getNext, Storage.getItem.
  rewrite lookup_insert_ne; [done | apply makeDataKey_ne_makeKey].
Qed.

Lemma getNext_delete_data (key : string) (s : gmap string string) :
  getNext name (delete (makeDataKey name key) s) = getNext name s.
Proof.
  unfold getNext, Storage.getItem.
  rewrite lookup_delete_ne; [done | apply makeDataKey_ne_makeKey].
Qed.

Lemma getNext_insert_next (e : number) (s : gmap string string) :
  getNext name (<[makeKey name "next" := toFixed e]> s) = or_Infinity e.
Proof.
  unfold getNext, Storage.getItem, toFixed. rewrite lookup_insert_eq. simpl.
  by rewrite Number_of_string_to_string.
Qed.


Lemma set__remove (key : string) (e : number) (now : Z)
    (s : gmap string string) :
  set_ name key None e now s = delete (makeDataKey name key) s.
Proof. done. Qed.

Lemma set__stale (key it : string) (e : number) (now : Z)
    (s : gmap string string) :
  checkFresh e now = false →
  set_ name key (Some it) e now s = delete (makeDataKey name key) s.
Proof. unfold set_. by intros ->. Qed.

Lemma checkFresh_not_NaN (e : number) (now : Z) :
  checkFresh e now = true → isNaN e = false.
Proof. by destruct e. Qed.

Lemma set__fresh (key it : string) (e : number) (now : Z)
    (s : gmap string string) :
  checkFresh e now = true →
  set_ name key (Some it) e now s =
    let s1 := <[makeDataKey name key := number_to_string e +:+ ":" +:+ it]> s in
    if num_gtb e (getNext name s) then s1
    else <[makeKey name "next" := toFixed e]> s1.
Proof.
  intros Hf. unfold set_, Storage.setItem. rewrite Hf. simpl.
  rewrite (checkFresh_not_NaN _ _ Hf), getNext_insert_data. done.
Qed.

End CodecFacts.

(** ** The scan: [$list] and [clean] *)

Section CleanFacts.

Context {parser : NumberParser}.
Variable name : string.

(** A loop over the indices of a list visits its elements in order. *)
Lemma foldl_seq_lookup {A B : Type} (f : B → option A → B)
    (pre l : list A) (b : B) :
  foldl (λ acc i, f acc ((pre ++ l) !! i)) b (seq (length pre) (length l))
  = foldl (λ acc x, f acc (Some x)) b l.
Proof.
  revert pre b. induction l as [|x l IH]; intros pre b; simpl; [done |].
  rewrite list_lookup_middle; [| done].
  specialize (IH (pre ++ [x]) (f b (Some x))).
  rewrite <- app_assoc, length_app in IH. simpl in IH.
  by rewrite Nat.add_1_r in IH.
Qed.

(** [record_assign] never gives the object a property named [__proto__]. *)
Lemma record_assign_lookup_proto (key key' : string) (n : number)
    (data : gmap string number) :
  key = "__proto__" → record_assign key' n data !! key = data !! key.
Proof.
  intros ->. unfold record_assign.
  destruct (String.eqb_spec key' "__proto__") as [Hp|Hp]; [done |].
  by rewrite lookup_insert_ne.
Qed.

Lemma record_assign_lookup_eq (key : string) (n : number)
    (data : gmap string number) :
  key ≠ "__proto__" → record_assign key n data !! key = Some n.
Proof.
  intros Hp. unfold record_assign.
  destruct (String.eqb_spec key "__proto__"); [done |].
  by rewrite lookup_insert_eq.
Qed.

Lemma record_assign_lookup_ne (key key' : string) (n : number)
    (data : gmap string number) :
  key' ≠ key → record_assign key' n data !! key = data !! key.
Proof.
  intros Hne. unfold record_assign.
  destruct (String.eqb key' "__proto__"); [done |].
  by rewrite lookup_insert_ne.
Qed.

Lemma list__fold (now : Z) (s : gmap string string) :
  list_ name now s
  = foldl (λ d sk, list_visit name now s d (Some sk)) ∅ (map_to_list s).*1.
Proof.
  unfold list_, Storage.length.
  rewrite <- (foldl_seq_lookup (list_visit name now s) []).
  simpl. by rewrite length_fmap, length_map_to_list.
Qed.

Lemma list_visit_fold_lookup (now : Z) (s : gmap string string)
    (l : list string) (data : gmap string number) (key : string) :
  foldl (λ d sk, list_visit name now s d (Some sk)) data l !! key
  = if String.eqb key "__proto__" then data !! key
    else if decide (makeDataKey name key ∈ l)
    then Some (expireAt (get_ name key now s))
    else data !! key.
Proof.
  revert data. induction l as [|sk l IH]; intros data.
  - by destruct (String.eqb key "__proto__").
  - cbn [foldl]. rewrite IH. unfold list_visit.
    destruct (String.eqb_spec key "__proto__") as [Hp|Hp].
    + destruct (startsWith _ sk) eqn:Hsw; [| done].
      by apply record_assign_lookup_proto.
    + destruct (decide (makeDataKey name key ∈ l)) as [Hin|Hnin].
      * rewrite decide_True; [done | by right].
      * destruct (decide (sk = makeDataKey name key)) as [->|Hne].
        -- rewrite decide_True; [| by left].
           rewrite startsWith_makeDataKey, slice_from_makeDataKey.
           by apply record_assign_lookup_eq.
        -- rewrite decide_False.
           2:{ intros [?|?]%elem_of_cons; congruence. }
           destruct (startsWith _ sk) eqn:Hsw; [| done].
           apply record_assign_lookup_ne.
           intros Heq. apply Hne. rewrite <- Heq.
           by apply startsWith_data_key.
Qed.

(** [$list] maps every key that has a data record, [__proto__] apart, to
    the expiration that [$get] reports for it. *)
Lemma list__lookup (now : Z) (s : gmap string string) (key : string) :
  list_ name now s !! key
  = if String.eqb key "__proto__" then None
    else match s !! makeDataKey name key with
         | Some _ => Some (expireAt (get_ name key now s))
         | None => None
         end.
Proof.
  rewrite list__fold, list_visit_fold_lookup, lookup_empty.
  destruct (String.eqb key "__proto__"); [done |].
  destruct (s !! makeDataKey name key) as [v|] eqn:Hv.
  - rewrite decide_True; [done |].
    apply list_elem_of_fmap. exists (makeDataKey name key, v).
    split; [done | by apply elem_of_map_to_list].
  - rewrite decide_False; [done |].
    intros ([k v] & Hk & Hin)%list_elem_of_fmap. simpl in Hk. subst k.
    apply elem_of_map_to_list in Hin. congruence.
Qed.

Lemma clean_step_fold_lookup (now : Z) (l : list (string * number))
    (s : gmap string string) (sk : string) :
  foldl (clean_step name now) s l !! sk
  = if existsb (λ kv, negb (checkFresh kv.2 now)
                      && bool_decide (makeDataKey name kv.1 = sk)) l
    then None else s !! sk.
Proof.
  revert s. induction l as [|[k e] l IH]; intros s; [done |].
  cbn [foldl existsb]. rewrite IH.
  destruct (existsb _ l); [by rewrite orb_true_r |].
  rewrite orb_false_r. unfold clean_step. cbn [fst snd].
  destruct (checkFresh e now); cbn [negb andb]; [done |].
  rewrite set__remove. case_bool_decide as Hk.
  - subst sk. by rewrite lookup_delete_eq.
  - by rewrite lookup_delete_ne.
Qed.

(** The scan deletes exactly the stale data records of the namespace. *)
Lemma sweep_lookup (now : Z) (s : gmap string string) (sk : string) :
  sweep name now s !! sk = if stale name now s sk then None else s !! sk.
Proof.
  unfold sweep. rewrite clean_step_fold_lookup.
  destruct (existsb _ _) eqn:Hex.
  - apply existsb_exists in Hex as ([k e] & Hin & Hf). simpl in Hf.
    apply andb_true_iff in Hf as [Hf Hk]. apply bool_decide_eq_true in Hk.
    apply list_elem_of_In, elem_of_map_to_list in Hin.
    rewrite list__lookup in Hin.
    destruct (String.eqb k "__proto__") eqn:Hp; [done |].
    destruct (s !! makeDataKey name k) eqn:Hs; [| done].
    injection Hin as <-. subst sk. unfold stale. cbv zeta.
    by rewrite startsWith_makeDataKey, slice_from_makeDataKey, Hp, Hf.
  - destruct (stale name now s sk) eqn:Hst; [| done].
    destruct (s !! sk) as [v|] eqn:Hs; [| done]. exfalso.
    unfold stale in Hst. cbv zeta in Hst.
    apply andb_true_iff in Hst as [Hsw Hst].
    apply andb_true_iff in Hst as [Hp Hf].
    apply negb_true_iff in Hp.
    pose proof (startsWith_data_key name sk Hsw) as Hsk.
    set (key := slice_from (str_length (makeDataKey name EmptyString)) sk) in *.
    assert (Hin : In (key, expireAt (get_ name key now s))
                     (map_to_list (list_ name now s))).
    { apply list_elem_of_In, elem_of_map_to_list.
      by rewrite list__lookup, Hp, <- Hsk, Hs. }
    apply not_true_iff_false in Hex. apply Hex, existsb_exists.
    eexists. split; [exact Hin |]. simpl. rewrite Hf. simpl.
    by apply bool_decide_eq_true.
Qed.

Lemma clean_lookup (now : Z) (s : gmap string string) (sk : string) :
  clean name now s !! sk
  = if num_gtb (getNext name s) (Fin now) then s !! sk
    else if stale name now s sk then None else s !! sk.
Proof.
  unfold clean. destruct (num_gtb _ _); [done | apply sweep_lookup].
Qed.

(** [clean] only ever removes records. *)
Lemma clean_lookup_Some (now : Z) (s : gmap string string) (sk v : string) :
  clean name now s !! sk = Some v → s !! sk = Some v.
Proof.
  rewrite clean_lookup. destruct (num_gtb _ _); [done |].
  by destruct (stale _ _ _ _).
Qed.

Lemma stale_makeKey (now : Z) (s : gmap string string) (k : string) :
  stale name now s (makeKey name k) = false.
Proof. unfold stale. cbv zeta. by rewrite startsWith_makeKey. Qed.

(** [clean] leaves the sentinel alone. *)
Lemma clean_sentinel (now : Z) (s : gmap string string) :
  clean name now s !! makeKey name "next" = s !! makeKey name "next".
Proof.
  rewrite clean_lookup, stale_makeKey. by destruct (num_gtb _ _).
Qed.

Lemma getNext_clean (now : Z) (s : gmap string string) :
  getNext name (clean name now s) = getNext name s.
Proof. unfold getNext, Storage.getItem. by rewrite clean_sentinel. Qed.

Lemma getNext_sweep (now : Z) (s : gmap string string) :
  getNext name (sweep name now s) = getNext name s.
Proof.
  unfold getNext, Storage.getItem. by rewrite sweep_lookup, stale_makeKey.
Qed.

Lemma stale_data_key (now : Z) (s : gmap string string) (key : string) :
  stale name now s (makeDataKey name key)
  = negb (String.eqb key "__proto__")
    && negb (checkFresh (expireAt (get_ name key now s)) now).
Proof.
  unfold stale. cbv zeta.
  by rewrite startsWith_makeDataKey, slice_from_makeDataKey.
Qed.

(** A record that reads as fresh is never stale. *)
Lemma stale_fresh (now : Z) (s : gmap string string) (key : string) :
  checkFresh (expireAt (get_ name key now s)) now = true →
  stale name now s (makeDataKey name key) = false.
Proof.
  intros Hf. rewrite stale_data_key, Hf. apply andb_false_r.
Qed.

(** Apart from the key [__proto__], a record is stale exactly when it does
    not read as fresh. *)
Lemma stale_plain_key (now : Z) (s : gmap string string) (key : string) :
  key ≠ "__proto__" →
  stale name now s (makeDataKey name key)
  = negb (checkFresh (expireAt (get_ name key now s)) now).
Proof.
  intros Hp. rewrite stale_data_key.
  by destruct (String.eqb_spec key "__proto__").
Qed.

(** Staleness of a record depends on that record only. *)
Lemma stale_ext (now : Z) (s1 s2 : gmap string string) (sk : string) :
  s1 !! sk = s2 !! sk → stale name now s1 sk = stale name now s2 sk.
Proof.
  intros H. unfold stale. cbv zeta.
  destruct (startsWith _ sk) eqn:Hsw; [| done]. simpl.
  rewrite (get__ext name _ now s1 s2); [done |].
  by rewrite <- (startsWith_data_key name sk Hsw).
Qed.

End CleanFacts.

(** ** The facade *)

Section FacadeFacts.

Context {parser : NumberParser} {value : Type} `{!JSON value}.
Variable name : string.

(** Within one clock reading, the [clean] that opens [getItem] does not
    change what [$get] reads. *)
Lemma get__clean (key : string) (now : Z) (s : gmap string string) :
  get_ name key now (clean name now s) = get_ name key now s.
Proof.
  destruct (clean name now s !! makeDataKey name key) as [v|] eqn:Hc.
  - apply get__ext. rewrite Hc. symmetry. by eapply clean_lookup_Some.
  - rewrite (get__absent _ _ _ _ Hc).
    rewrite clean_lookup in Hc.
    destruct (num_gtb _ _); [by rewrite get__absent |].
    destruct (get__cases name key now s) as [->|(raw & e & _ & _ & Hf & Hg)];
      [done |].
    rewrite stale_fresh in Hc; [by rewrite get__absent |].
    by rewrite Hg.
Qed.

Lemma getItem_value (key : string) (now : Z) (s : gmap string string) :
  (getItem name key now s).1 = tryJson (item (get_ name key now s)).
Proof. unfold getItem. simpl. by rewrite get__clean. Qed.

Lemma getItem_store (key : string) (now : Z) (s : gmap string string) :
  (getItem name key now s).2 = clean name now s.
Proof. done. Qed.

Lemma getItem_absent (key : string) (now : Z) (s : gmap string string) :
  s !! makeDataKey name key = None → (getItem name key now s).1 = null.
Proof. intros H. by rewrite getItem_value, get__absent. Qed.

Lemma set__fresh_lookup (key it : string) (e : number) (now : Z)
    (s : gmap string string) :
  checkFresh e now = true →
  set_ name key (Some it) e now s !! makeDataKey name key
  = Some (number_to_string e +:+ ":" +:+ it).
Proof.
  intros Hf. rewrite (set__fresh _ _ _ _ _ _ Hf). simpl.
  destruct (num_gtb _ _).
  - by rewrite lookup_insert_eq.
  - rewrite lookup_insert_ne; [| apply not_eq_sym, makeDataKey_ne_makeKey].
    by rewrite lookup_insert_eq.
Qed.

Lemma setItem_never (key : string) (v : value) (expire : number) (now : Z)
    (s : gmap string string) :
  num_ltb expire (Fin 0) = true →
  setItem name key v expire now s = setItemUntil name key v (Fin (-1)) now s.
Proof. unfold setItem. by intros ->. Qed.

Lemma setItem_ttl (key : string) (v : value) (expire : number) (now : Z)
    (s : gmap string string) :
  num_ltb expire (Fin 0) = false →
  setItem name key v expire now s
  = setItemUntil name key v
      (num_add (Fin now) (num_mul expire (Fin 1000))) now s.
Proof. unfold setItem. by intros ->. Qed.

Lemma setItemUntil_returned (key it : string) (v : value) (e : number)
    (now : Z) (s : gmap string string) :
  JSON_stringify v = Returned it →
  setItemUntil name key v e now s = set_ name key (Some it) e now s.
Proof. unfold setItemUntil. by intros ->. Qed.

(** What [$get] reads as nothing. *)
Lemma get__unreadable (key : string) (now : Z) (s : gmap string string) :
  record_absent name s key ∨ record_expired name s now key
  ∨ record_malformed name s key →
  get_ name key now s = NULL_DATA.
Proof.
  intros [Ha|[(raw & e & Hraw & He & _ & Hf)|(raw & Hraw & Hbad)]].
  - by apply get__absent.
  - by rewrite (get__decode _ _ _ _ _ Hraw), He, Hf.
  - rewrite (get__decode _ _ _ _ _ Hraw). destruct Hbad as [Hi|He].
    + unfold decode_expireAt.
      by destruct (Z.ltb_spec (indexOf ":" raw) 1); [| lia].
    + by rewrite He.
Qed.

End FacadeFacts.

(** ** The sentinel *)

Section SentinelFacts.

Context {parser : NumberParser} {value : Type} `{!JSON value}.
Variable name : string.

Lemma num_leb_le (x y : number) : num_leb x y = true → num_le x y.
Proof.
  destruct x as [| |a|], y as [| |b|]; simpl; try done.
  unfold num_leb. simpl. intros H%negb_true_iff%Z.ltb_ge. lia.
Qed.

Lemma num_leb_refl (x : number) : isNaN x = false → num_leb x x = true.
Proof.
  destruct x as [| |a|]; try done. intros _. unfold num_leb. simpl.
  apply negb_true_iff, Z.ltb_irrefl.
Qed.

Lemma num_gtb_leb (x y : number) : num_gtb x y = true → num_leb y x = true.
Proof.
  destruct x as [| |a|], y as [| |b|]; try done. unfold num_leb. simpl.
  intros H%Z.ltb_lt. apply negb_true_iff, Z.ltb_ge. lia.
Qed.

Lemma num_leb_trans (x y z : number) :
  isNaN x = false → num_gtb x y = false → num_leb y z = true →
  num_leb x z = true.
Proof.
  destruct x as [| |a|], y as [| |b|], z as [| |c|]; try done;
    unfold num_leb; simpl; intros _.
  intros H1%Z.ltb_ge H2%negb_true_iff%Z.ltb_ge.
  apply negb_true_iff, Z.ltb_ge. lia.
Qed.

(** A fresh expiration, at a clock reading that is not negative, is a
    number that [getNext] reads back unchanged. *)
Lemma fresh_truthy (e : number) (now : Z) :
  0 <= now → checkFresh e now = true → or_Infinity e = e.
Proof.
  intros Hnow. destruct e as [| |[|p|p]|]; try done.
  unfold checkFresh. simpl. intros H%Z.ltb_lt. lia.
Qed.

Lemma sentinel_insert_data (key v : string) (s : gmap string string) :
  sentinel name (<[makeDataKey name key := v]> s) = sentinel name s.
Proof.
  unfold sentinel, Storage.getItem.
  rewrite lookup_insert_ne; [done | apply makeDataKey_ne_makeKey].
Qed.

Lemma sentinel_delete_data (key : string) (s : gmap string string) :
  sentinel name (delete (makeDataKey name key) s) = sentinel name s.
Proof.
  unfold sentinel, Storage.getItem.
  rewrite lookup_delete_ne; [done | apply makeDataKey_ne_makeKey].
Qed.

Lemma sentinel_clean (now : Z) (s : gmap string string) :
  sentinel name (clean name now s) = sentinel name s.
Proof. unfold sentinel, Storage.getItem. apply clean_sentinel. Qed.

Lemma getNext_sentinel (s1 s2 : gmap string string) :
  sentinel name s1 = sentinel name s2 → getNext name s1 = getNext name s2.
Proof. unfold getNext, sentinel. by intros ->. Qed.

Lemma consistent_spec (s : gmap string string) :
  consistent name s = true
  ↔ sentinel_wf name s = true
    ∧ ∀ sk raw, s !! sk = Some raw →
        covered name (getNext name s) sk raw = true.
Proof.
  unfold consistent. rewrite andb_true_iff, forallb_forall.
  split; intros [Hwf Hall]; (split; [done |]).
  - intros sk raw Hs.
    apply (Hall (sk, raw)), list_elem_of_In. by apply elem_of_map_to_list.
  - intros [sk raw] Hin%list_elem_of_In%elem_of_map_to_list.
    by apply Hall.
Qed.

(** Consistency survives the removal of records other than the sentinel. *)
Lemma consistent_shrink (s s' : gmap string string) :
  sentinel name s' = sentinel name s →
  (∀ sk raw, s' !! sk = Some raw → s !! sk = Some raw) →
  consistent name s = true → consistent name s' = true.
Proof.
  intros Hsent Hsub. rewrite !consistent_spec. intros [Hwf Hall]. split.
  - unfold sentinel_wf in *. by rewrite Hsent.
  - intros sk raw Hs. rewrite (getNext_sentinel _ _ Hsent). auto.
Qed.

Lemma consistent_delete (key : string) (s : gmap string string) :
  consistent name s = true →
  consistent name (delete (makeDataKey name key) s) = true.
Proof.
  apply consistent_shrink; [apply sentinel_delete_data |].
  intros sk raw. rewrite lookup_delete. by case_decide.
Qed.

Lemma consistent_clean (now : Z) (s : gmap string string) :
  consistent name s = true → consistent name (clean name now s) = true.
Proof.
  apply consistent_shrink; [apply sentinel_clean |].
  intros sk raw. apply clean_lookup_Some.
Qed.

Lemma covered_written (next e : number) (key it : string) :
  isNaN e = false → num_leb next e = true →
  covered name next (makeDataKey name key)
    (number_to_string e +:+ ":" +:+ it) = true.
Proof.
  intros Hn Hle. unfold covered.
  by rewrite startsWith_makeDataKey, decode_written, Hn, Hle.
Qed.

Lemma covered_lower (next e : number) (sk raw : string) :
  isNaN e = false → num_gtb e next = false →
  covered name next sk raw = true → covered name e sk raw = true.
Proof.
  intros Hn Hgt. unfold covered.
  destruct (startsWith _ sk); [| done].
  destruct (decode_expireAt raw) as [e'|]; [| done].
  destruct (isNaN e'); [done |]. simpl.
  by apply num_leb_trans.
Qed.

(** [$set] keeps the store consistent. *)
Lemma consistent_set_ (key : string) (it : option string) (e : number)
    (now : Z) (s : gmap string string) :
  0 <= now → consistent name s = true →
  consistent name (set_ name key it e now s) = true.
Proof.
  intros Hnow Hc. destruct it as [it|]; [| by apply consistent_delete].
  destruct (checkFresh e now) eqn:Hf;
    [| rewrite (set__stale _ _ _ _ _ _ Hf); by apply consistent_delete].
  rewrite (set__fresh _ _ _ _ _ _ Hf). cbv zeta.
  pose proof (checkFresh_not_NaN _ _ Hf) as Hn.
  apply consistent_spec in Hc as [Hwf Hall].
  destruct (num_gtb e (getNext name s)) eqn:Hgt; apply consistent_spec.
  - split.
    + unfold sentinel_wf in *. by rewrite sentinel_insert_data.
    + intros sk raw. rewrite getNext_insert_data, lookup_insert.
      case_decide as Hk.
      * intros [= <-]. subst sk. apply covered_written; [done |].
        by apply num_gtb_leb.
      * apply Hall.
  - split.
    + unfold sentinel_wf, sentinel, Storage.getItem, toFixed.
      rewrite lookup_insert_eq, Number_of_string_to_string.
      pose proof (fresh_truthy _ _ Hnow Hf) as Ht.
      by destruct e as [| |[]|].
    + intros sk raw.
      rewrite getNext_insert_next, (fresh_truthy _ _ Hnow Hf).
      rewrite lookup_insert. case_decide as Hk.
      * intros _. subst sk. unfold covered. by rewrite startsWith_makeKey.
      * rewrite lookup_insert. case_decide as Hk'.
        -- intros [= <-]. subst sk. apply covered_written; [done |].
           by apply num_leb_refl.
        -- intros Hs. eapply covered_lower; eauto.
Qed.

(** Every call of the facade keeps the store consistent. *)
Lemma consistent_exec (o : op value) (now : Z) (s : gmap string string) :
  0 <= now → consistent name s = true →
  consistent name (exec name o now s) = true.
Proof.
  intros Hnow Hc.
  assert (Huntil : ∀ k v e,
             consistent name (setItemUntil name k v e now s) = true).
  { intros k v e. unfold setItemUntil.
    destruct (JSON_stringify v); [by apply consistent_set_ | done]. }
  destruct o as [k v ex|k v e|k v|k ex|k e|k|k|]; simpl.
  - unfold setItem. destruct (num_ltb _ _); apply Huntil.
  - apply Huntil.
  - apply Huntil.
  - unfold setExpire, setExpireAt.
    destruct (num_ltb _ _); by apply consistent_set_.
  - by apply consistent_set_.
  - by apply consistent_set_.
  - by apply consistent_clean.
  - by apply consistent_clean.
Qed.

Lemma consistent_run (calls : list (Z * op value)) (s : gmap string string) :
  clock_ok calls = true → consistent name s = true →
  consistent name (run name calls s) = true.
Proof.
  revert s. induction calls as [|[t o] calls IH]; intros s; [done |].
  cbn [clock_ok forallb fst]. intros [Ht Hok]%andb_true_iff Hc.
  apply Z.leb_le in Ht. unfold run. cbn [foldl fst snd].
  apply IH; [done |]. by apply consistent_exec.
Qed.

(** In a consistent store the sentinel bounds every fresh entry. *)
Lemma consistent_bound (s : gmap string string) (now : Z) :
  consistent name s = true → sentinel_lower_bound name s now.
Proof.
  intros [Hwf Hall]%consistent_spec sv key e Hsv [it Hget].
  destruct (get__cases name key now s) as [Hn|(raw & e' & Hraw & He & Hf & Hg)].
  { rewrite Hn in Hget. discriminate Hget. }
  rewrite Hg in Hget. injection Hget as -> _.
  specialize (Hall _ _ Hraw). unfold covered in Hall.
  rewrite startsWith_makeDataKey, He, (checkFresh_not_NaN _ _ Hf) in Hall.
  simpl in Hall. apply num_leb_le in Hall.
  unfold sentinel_wf in Hwf. rewrite Hsv in Hwf.
  unfold getNext in Hall. fold (sentinel name s) in Hall.
  rewrite Hsv in Hall. simpl in Hall.
  by destruct (Number_of_string sv) as [| |[]|].
Qed.

(** A store without any record of the namespace is consistent. *)
Lemma consistent_new_namespace (s : gmap string string) :
  sentinel name s = None →
  (∀ sk raw, s !! sk = Some raw →
     startsWith (makeDataKey name EmptyString) sk = false) →
  consistent name s = true.
Proof.
  intros Hsent Hnone. apply consistent_spec. split.
  - unfold sentinel_wf. by rewrite Hsent.
  - intros sk raw Hs. unfold covered. by rewrite (Hnone _ _ Hs).
Qed.

(** Once the sentinel holds -1, no call changes it. *)
Lemma pinned_set_ (key : string) (it : option string) (e : number) (now : Z)
    (s : gmap string string) :
  0 <= now → sentinel name s = Some "-1" →
  sentinel name (set_ name key it e now s) = Some "-1".
Proof.
  intros Hnow Hp. destruct it as [it|];
    [| by rewrite set__remove, sentinel_delete_data].
  destruct (checkFresh e now) eqn:Hf;
    [| by rewrite (set__stale _ _ _ _ _ _ Hf), sentinel_delete_data].
  rewrite (set__fresh _ _ _ _ _ _ Hf). cbv zeta.
  assert (Hnext : getNext name s = Fin (-1)).
  { unfold getNext. fold (sentinel name s). rewrite Hp. simpl.
    by rewrite Number_of_minus_one. }
  rewrite Hnext. destruct (num_gtb e (Fin (-1))) eqn:Hgt.
  - by rewrite sentinel_insert_data.
  - unfold sentinel, Storage.getItem. rewrite lookup_insert_eq.
    destruct e as [| |z|]; try done. f_equal. unfold toFixed.
    replace z with (-1); [done |].
    unfold checkFresh in Hf. simpl in Hf, Hgt. apply Z.ltb_ge in Hgt.
    destruct (Z.eqb_spec z (-1)); [done |]. apply Z.ltb_lt in Hf. lia.
Qed.

Lemma pinned_exec (o : op value) (now : Z) (s : gmap string string) :
  0 <= now → sentinel name s = Some "-1" →
  sentinel name (exec name o now s) = Some "-1".
Proof.
  intros Hnow Hp.
  assert (Huntil : ∀ k v e,
             sentinel name (setItemUntil name k v e now s) = Some "-1").
  { intros k v e. unfold setItemUntil.
    destruct (JSON_stringify v); [by apply pinned_set_ | done]. }
  destruct o as [k v ex|k v e|k v|k ex|k e|k|k|]; simpl.
  - unfold setItem. destruct (num_ltb _ _); apply Huntil.
  - apply Huntil.
  - apply Huntil.
  - unfold setExpire, setExpireAt.
    destruct (num_ltb _ _); by apply pinned_set_.
  - by apply pinned_set_.
  - by apply pinned_set_.
  - by rewrite sentinel_clean.
  - by rewrite sentinel_clean.
Qed.

Lemma pinned_run (calls : list (Z * op value)) (s : gmap string string) :
  clock_ok calls = true → sentinel name s = Some "-1" →
  sentinel name (run name calls s) = Some "-1".
Proof.
  revert s. induction calls as [|[t o] calls IH]; intros s; [done |].
  cbn [clock_ok forallb fst]. intros [Ht Hok]%andb_true_iff Hp.
  apply Z.leb_le in Ht. unfold run. cbn [foldl fst snd].
  apply IH; [done |]. by apply pinned_exec.
Qed.

(** The sentinel never reads below -1 once it does not. *)
Lemma getNext_floor_set_ (key : string) (it : option string) (e : number)
    (now : Z) (s : gmap string string) :
  0 <= now → num_gtb (Fin (-1)) (getNext name s) = false →
  num_gtb (Fin (-1)) (getNext name (set_ name key it e now s)) = false.
Proof.
  intros Hnow Hfl. destruct it as [it|];
    [| by rewrite set__remove, getNext_delete_data].
  destruct (checkFresh e now) eqn:Hf;
    [| by rewrite (set__stale _ _ _ _ _ _ Hf), getNext_delete_data].
  rewrite (set__fresh _ _ _ _ _ _ Hf). cbv zeta.
  destruct (num_gtb e (getNext name s)).
  - by rewrite getNext_insert_data.
  - rewrite getNext_insert_next, (fresh_truthy _ _ Hnow Hf).
    destruct e as [| |z|]; try done. unfold checkFresh in Hf. simpl in *.
    apply Z.ltb_ge. destruct (Z.eqb_spec z (-1)); [lia |].
    apply Z.ltb_lt in Hf. lia.
Qed.

Lemma getNext_floor_exec (o : op value) (now : Z) (s : gmap string string) :
  0 <= now → num_gtb (Fin (-1)) (getNext name s) = false →
  num_gtb (Fin (-1)) (getNext name (exec name o now s)) = false.
Proof.
  intros Hnow Hfl.
  assert (Huntil : ∀ k v e,
             num_gtb (Fin (-1))
               (getNext name (setItemUntil name k v e now s)) = false).
  { intros k v e. unfold setItemUntil.
    destruct (JSON_stringify v); [by apply getNext_floor_set_ | done]. }
  destruct o as [k v ex|k v e|k v|k ex|k e|k|k|]; simpl.
  - unfold setItem. destruct (num_ltb _ _); apply Huntil.
  - apply Huntil.
  - apply Huntil.
  - unfold setExpire, setExpireAt.
    destruct (num_ltb _ _); by apply getNext_floor_set_.
  - by apply getNext_floor_set_.
  - by apply getNext_floor_set_.
  - by rewrite getNext_clean.
  - by rewrite getNext_clean.
Qed.

(** From a store without a sentinel, the facade never makes the sentinel
    read below -1. *)
Lemma getNext_floor_run (calls : list (Z * op value))
    (s : gmap string string) :
  clock_ok calls = true → sentinel name s = None →
  num_gtb (Fin (-1)) (getNext name (run name calls s)) = false.
Proof.
  intros Hok Hnone.
  assert (Hfl : num_gtb (Fin (-1)) (getNext name s) = false).
  { unfold getNext. fold (sentinel name s). by rewrite Hnone. }
  clear Hnone. revert s Hok Hfl.
  induction calls as [|[t o] calls IH]; intros s; [done |].
  cbn [clock_ok forallb fst]. intros [Ht Hok]%andb_true_iff Hfl.
  apply Z.leb_le in Ht. unfold run. cbn [foldl fst snd].
  apply IH; [done |]. by apply getNext_floor_exec.
Qed.

End SentinelFacts.

(** ** A dated entry until its eviction *)

Section ExpiryFacts.

Context {parser : NumberParser} {value : Type} `{!JSON value}.
Variable name : string.

Lemma set__lookup_other (key : string) (it : option string) (e : number)
    (now : Z) (s : gmap string string) (sk : string) :
  sk ≠ makeDataKey name key → sk ≠ makeKey name "next" →
  set_ name key it e now s !! sk = s !! sk.
Proof.
  intros Hd Hn. destruct it as [it|];
    [| by rewrite set__remove, lookup_delete_ne].
  destruct (checkFresh e now) eqn:Hf;
    [| by rewrite (set__stale _ _ _ _ _ _ Hf), lookup_delete_ne].
  rewrite (set__fresh _ _ _ _ _ _ Hf). cbv zeta.
  destruct (num_gtb _ _); rewrite ?(lookup_insert_ne _ (makeKey name "next"));
    try done; by rewrite lookup_insert_ne.
Qed.








End ExpiryFacts.

(** * The claims *)

Section Claims.

Context {parser : NumberParser} {value : Type} `{!JSON value}.
Variable name : string.


(** C2. After [setItem(k, v)] without a TTL (the entry never expires),
    [getItem(k)], at whatever later clock reading, returns [v] as it comes
    back from the JSON round trip, [JSON.parse(JSON.stringify(v))]: [v]
    itself when the round trip gives [v] back. *)
Theorem setItem_getItem_roundtrip (k it : string) (v : value) (now now' : Z)
    (s : gmap string string) :
  JSON_stringify v = Returned it →
  let r := (getItem name k now' (setItem name k v (Fin (-1)) now s)).1 in
  r = tryJson (Some it) ∧ (JSON_parse it = Returned v → r = v).
Proof.
  intros Hv r.
  assert (Hr : r = tryJson (Some it)).
  { unfold r. rewrite setItem_never; [| done].
    rewrite (setItemUntil_returned _ _ _ _ _ _ _ Hv), getItem_value.
    by rewrite (get__written name k now' _ (Fin (-1)) it);
      [| apply set__fresh_lookup]. }
  split; [done |]. intros Hp. rewrite Hr. simpl. by rewrite Hp.
Qed.

(** C3, as amended, for expirations that are whole numbers of
    milliseconds.  A store is consistent when what [getNext] returns (a
    missing or unreadable sentinel counting as [Infinity]) is at most the
    expiration that [Number] reads in every data record of the namespace,
    and a sentinel that is present reads as a number other than zero.  Any
    calls
    of the facade, made at clock readings that are not negative, take a
    consistent store to a consistent store; and there the numeric value of
    the sentinel, when the record is present, is at most the expiration of
    every fresh entry. *)
Theorem sentinel_bound_preserved (calls : list (Z * op value))
    (s : gmap string string) :
  clock_ok calls = true →
  consistent name s = true →
  consistent name (run name calls s) = true
  ∧ ∀ now, sentinel_lower_bound name (run name calls s) now.
Proof.
  intros Hok Hc.
  pose proof (consistent_run name calls s Hok Hc) as Hc'.
  split; [done |]. intros now. by apply consistent_bound.
Qed.

(** C4. [getItem(k)] is total and returns [null], the same answer in each
    case, when the data record of [k] is absent, when its expiration has
    passed (cleaned already or not), and when it is corrupted: no colon at
    index 1 or later, an expiration that is not a number, or a payload that
    fails to decode. *)
Theorem getItem_null_cases (k : string) (now : Z) (s : gmap string string) :
  record_absent name s k ∨ record_expired name s now k
  ∨ record_corrupted name s k →
  (getItem name k now s).1 = null.
Proof.
  intros H. rewrite getItem_value.
  assert (Hcases : (record_absent name s k ∨ record_expired name s now k
                    ∨ record_malformed name s k)
                   ∨ record_undecodable name s k)
    by (unfold record_corrupted in H; tauto).
  destruct Hcases as [Hu|(raw & Hraw & Hp)].
  - by rewrite (get__unreadable _ _ _ _ Hu).
  - rewrite (get__decode _ _ _ _ _ Hraw).
    destruct (decode_expireAt raw) as [e|]; [| done].
    destruct (checkFresh e now); [| done].
    simpl. by rewrite Hp.
Qed.

(** C5. When [k] holds a fresh entry that expires at [T], [updateItem(k, v2)]
    stores the encoding of [v2] as the payload and the entry still expires
    at exactly [T]. *)
Theorem updateItem_keeps_expireAt (k it it2 : string) (v2 : value)
    (T : number) (now : Z) (s : gmap string string) :
  get_ name k now s = {| expireAt := T; item := Some it |} →
  JSON_stringify v2 = Returned it2 →
  let s' := updateItem name k v2 now s in
  s' !! makeDataKey name k = Some (number_to_string T +:+ ":" +:+ it2)
  ∧ get_ name k now s' = {| expireAt := T; item := Some it2 |}
  ∧ (getItem name k now s').1 = tryJson (Some it2).
Proof.
  intros Hget Hv s'.
  assert (Hf : checkFresh T now = true).
  { destruct (get__cases name k now s) as [Hn|(raw & e & _ & _ & Hf & Hg)].
    - rewrite Hn in Hget. discriminate Hget.
    - rewrite Hg in Hget. by injection Hget as <- _. }
  assert (Hraw : s' !! makeDataKey name k
                 = Some (number_to_string T +:+ ":" +:+ it2)).
  { unfold s', updateItem. rewrite Hget. simpl.
    rewrite (setItemUntil_returned _ _ _ _ _ _ _ Hv).
    by apply set__fresh_lookup. }
  assert (Hget' : get_ name k now s' = {| expireAt := T; item := Some it2 |}).
  { by rewrite (get__written name k now s' T it2 Hraw), Hf. }
  split; [done |]. split; [done |]. by rewrite getItem_value, Hget'.
Qed.

(** C6, as amended.  When [$get] reads nothing for [k] (no record, an
    expiration that has passed, or a malformed expiration part), and the
    clock reads 1 or more, [updateItem(k, v)] with a serialisable [v]
    behaves as a write that expires at once: the data record of [k] is
    deleted and [getItem(k)] returns [null] from then on. *)
Theorem updateItem_unreadable (k it : string) (v : value) (now : Z)
    (s : gmap string string) :
  1 <= now →
  record_absent name s k ∨ record_expired name s now k
  ∨ record_malformed name s k →
  JSON_stringify v = Returned it →
  let s' := updateItem name k v now s in
  s' = removeItem name k now s
  ∧ s' !! makeDataKey name k = None
  ∧ ∀ now', (getItem name k now' s').1 = null.
Proof.
  intros Hnow Hu Hv s'.
  assert (Hs' : s' = delete (makeDataKey name k) s).
  { unfold s', updateItem. rewrite (get__unreadable _ _ _ _ Hu). simpl.
    rewrite (setItemUntil_returned _ _ _ _ _ _ _ Hv). apply set__stale.
    unfold checkFresh. simpl. apply Z.ltb_ge. lia. }
  assert (Hgone : s' !! makeDataKey name k = None)
    by (rewrite Hs'; apply lookup_delete_eq).
  split; [by rewrite Hs' |]. split; [done |].
  intros now'. by apply getItem_absent.
Qed.

(** C7. [removeItem(k)] deletes the data record of [k] at once: the record
    is gone from the underlying store, a [getItem(k)] that follows returns
    [null], and the number of records of the underlying store went down by
    exactly one when the record existed and did not change otherwise. *)
Theorem removeItem_deletes (k : string) (now now' : Z)
    (s : gmap string string) :
  let s' := removeItem name k now s in
  s' = Storage.removeItem (makeDataKey name k) s
  ∧ s' !! makeDataKey name k = None
  ∧ (getItem name k now' s').1 = null
  ∧ match s !! makeDataKey name k with
    | Some _ => S (Storage.length s') = Storage.length s
    | None => Storage.length s' = Storage.length s
    end.
Proof.
  intros s'. unfold s', removeItem. rewrite set__remove.
  assert (Hgone : delete (makeDataKey name k) s !! makeDataKey name k = None)
    by apply lookup_delete_eq.
  split; [done |]. split; [done |]. split; [by apply getItem_absent |].
  unfold Storage.length. rewrite map_size_delete.
  destruct (s !! makeDataKey name k) as [v|] eqn:Hv; [| done].
  assert (size s ≠ 0%nat); [| simpl; lia].
  apply map_size_non_empty_iff. intros ->. by rewrite lookup_empty in Hv.
Qed.

(** C8. [clean()] is idempotent: at a fixed clock reading, a second call
    right after the first leaves the store exactly as the first call left
    it, whatever the store held. *)
Theorem clean_idempotent (now : Z) (s : gmap string string) :
  clean name now (clean name now s) = clean name now s.
Proof.
  apply map_eq. intros sk.
  rewrite (clean_lookup name now (clean name now s)), getNext_clean.
  destruct (num_gtb (getNext name s) (Fin now)) eqn:Hfast; [done |].
  destruct (stale name now (clean name now s) sk) eqn:Hst; [| done].
  destruct (clean name now s !! sk) as [v|] eqn:Hc; [| done]. exfalso.
  pose proof Hc as Hs. rewrite clean_lookup, Hfast in Hs.
  destruct (stale name now s sk) eqn:Hst2; [done |].
  rewrite (stale_ext name now (clean name now s) s sk) in Hst; [congruence |].
  by rewrite Hc.
Qed.

(** C9. With a serialisable value, [setItemUntil(k, v, expireAt)] for an
    [expireAt] that is not -1 and not strictly greater than the clock
    ([NaN] and every past instant included) does what [removeItem(k)] does:
    nothing is written and the data record of [k] is deleted.  The same
    holds for [setItem(k, v, 0)]. *)
Theorem setItemUntil_not_fresh_removes (k it : string) (v : value)
    (e : number) (now : Z) (s : gmap string string) :
  JSON_stringify v = Returned it →
  num_eqb e (Fin (-1)) = false →
  num_gtb e (Fin now) = false →
  setItemUntil name k v e now s = removeItem name k now s
  ∧ setItemUntil name k v e now s = delete (makeDataKey name k) s
  ∧ (now ≠ -1 → setItem name k v (Fin 0) now s = removeItem name k now s).
Proof.
  intros Hv He Hgt. unfold removeItem. rewrite set__remove.
  assert (Hstale : checkFresh e now = false).
  { unfold checkFresh. rewrite He, Hgt. by destruct (isNaN e). }
  rewrite (setItemUntil_returned _ _ _ _ _ _ _ Hv).
  rewrite (set__stale _ _ _ _ _ _ Hstale).
  split; [done |]. split; [done |]. intros Hnow.
  rewrite setItem_ttl; [| done].
  rewrite (setItemUntil_returned _ _ _ _ _ _ _ Hv). apply set__stale.
  simpl. unfold checkFresh. simpl. rewrite Z.add_0_r.
  destruct (Z.eqb_spec now (-1)); [done |]. by rewrite Z.ltb_irrefl.
Qed.

(** C10, as amended.  On a store whose sentinel does not read below -1,
    after a never-expiring write that went through ([setItem] with a
    negative TTL, which is [setItemUntil] with -1), the sentinel record
    holds the string -1.  After any further calls, at clock readings that
    are not negative, it still does and [getNext()] returns -1.  Every
    [clean()] from then on fails the fast-path test and scans the store:
    the object that [$list] returns has an own property, holding what [$get]
    reads, for every data record of the namespace under a key other than
    [__proto__], and [clean()] leaves the store without the records that are
    stale, the others being as they were. *)
Theorem never_expiring_pins_sentinel (k it : string) (v : value)
    (expire : number) (now : Z) (calls : list (Z * op value))
    (s : gmap string string) :
  JSON_stringify v = Returned it →
  num_ltb expire (Fin 0) = true →
  num_gtb (Fin (-1)) (getNext name s) = false →
  clock_ok calls = true →
  let s1 := setItem name k v expire now s in
  let s2 := run name calls s1 in
  s1 = setItemUntil name k v (Fin (-1)) now s
  ∧ sentinel name s1 = Some "-1"
  ∧ sentinel name s2 = Some "-1"
  ∧ getNext name s2 = Fin (-1)
  ∧ ∀ now', 0 <= now' →
      num_gtb (getNext name s2) (Fin now') = false
      ∧ clean name now' s2 = sweep name now' s2
      ∧ (∀ key raw, key ≠ "__proto__" →
           s2 !! makeDataKey name key = Some raw →
           list_ name now' s2 !! key
           = Some (expireAt (get_ name key now' s2)))
      ∧ (∀ sk, clean name now' s2 !! sk
               = if stale name now' s2 sk then None else s2 !! sk).
Proof.
  intros Hv Hneg Hfloor Hok s1 s2.
  assert (Hs1 : s1 = setItemUntil name k v (Fin (-1)) now s)
    by by apply setItem_never.
  assert (Hp1 : sentinel name s1 = Some "-1").
  { rewrite Hs1, (setItemUntil_returned _ _ _ _ _ _ _ Hv).
    rewrite set__fresh; [| done]. cbv zeta. rewrite Hfloor.
    unfold sentinel, Storage.getItem. by rewrite lookup_insert_eq. }
  assert (Hp2 : sentinel name s2 = Some "-1") by by apply pinned_run.
  assert (Hnext : getNext name s2 = Fin (-1)).
  { unfold getNext. fold (sentinel name s2). rewrite Hp2. simpl.
    by rewrite Number_of_minus_one. }
  repeat (split; [done |]).
  intros now' Hnow'.
  assert (Hscan : num_gtb (getNext name s2) (Fin now') = false).
  { rewrite Hnext. simpl. by destruct (Z.ltb_spec now' (-1)); [lia |]. }
  split; [done |]. split; [unfold clean; by rewrite Hscan |]. split.
  - intros key raw Hk Hraw. rewrite list__lookup, Hraw.
    by destruct (String.eqb_spec key "__proto__").
  - intros sk. by rewrite clean_lookup, Hscan.
Qed.

End Claims.

(** * Further properties of the module *)

(** ** Shared facts *)

Section MoreFacts.

Context {parser : NumberParser} {value : Type} `{!JSON value}.
Variable name : string.


(** What is fresh at an instant was fresh at every earlier one. *)
Lemma checkFresh_earlier (e : number) (now now' : Z) :
  now <= now' → checkFresh e now' = true → checkFresh e now = true.
Proof.
  intros Hle. unfold checkFresh.
  destruct (num_eqb e (Fin (-1))); [done |].
  destruct e as [| |z|]; simpl; try done.
  intros H%Z.ltb_lt. apply Z.ltb_lt. lia.
Qed.

Lemma get__earlier (k : string) (now now' : Z) (s : gmap string string) :
  now <= now' → item (get_ name k now' s) ≠ None →
  get_ name k now s = get_ name k now' s.
Proof.
  intros Hle Hread.
  destruct (get__cases name k now' s) as [Hn|(raw & e & Hraw & He & Hf & Hg)].
  { by rewrite Hn in Hread. }
  rewrite Hg, (get__decode _ _ _ _ _ Hraw), He.
  by rewrite (checkFresh_earlier _ _ _ Hle Hf).
Qed.

Lemma get__later_None (k : string) (now now' : Z) (s : gmap string string) :
  now <= now' → item (get_ name k now s) = None →
  item (get_ name k now' s) = None.
Proof.
  intros Hle Hnone.
  destruct (item (get_ name k now' s)) as [it|] eqn:Hit; [| done].
  rewrite (get__earlier k now now' s Hle) in Hnone; congruence.
Qed.

Lemma item_None_NULL_DATA (k : string) (now : Z) (s : gmap string string) :
  item (get_ name k now s) = None → get_ name k now s = NULL_DATA.
Proof.
  destruct (get__cases name k now s) as [->|(raw & e & _ & _ & _ & ->)]; done.
Qed.

(** A call that does not write [k] leaves the data record of [k] as it is
    when the entry is fresh at the time of the call. *)
Lemma exec_keeps_fresh (k raw : string) (e : number) (o : op value) (now : Z)
    (s : gmap string string) :
  s !! makeDataKey name k = Some raw →
  decode_expireAt raw = Some e →
  checkFresh e now = true →
  writes_key k o = false →
  exec name o now s !! makeDataKey name k = Some raw.
Proof.
  intros Hraw He Hf Hw.
  assert (Hset : ∀ key it e', key ≠ k →
             set_ name key it e' now s !! makeDataKey name k = Some raw).
  { intros key it e' Hk. rewrite set__lookup_other; [done | |].
    - by intros ?%makeDataKey_inj.
    - apply makeDataKey_ne_makeKey. }
  assert (Huntil : ∀ key v e', key ≠ k →
             setItemUntil name key v e' now s !! makeDataKey name k = Some raw).
  { intros key v e' Hk. unfold setItemUntil.
    destruct (JSON_stringify v); [by apply Hset | done]. }
  assert (Hclean : clean name now s !! makeDataKey name k = Some raw).
  { rewrite clean_lookup, stale_fresh; [by destruct (num_gtb _ _) |].
    rewrite (get__decode _ _ _ _ _ Hraw), He, Hf. simpl. exact Hf. }
  destruct o as [key v ex|key v e'|key v|key ex|key e'|key|key|];
    simpl in Hw; try apply bool_decide_eq_false in Hw; simpl.
  - unfold setItem. destruct (num_ltb _ _); by apply Huntil.
  - by apply Huntil.
  - by apply Huntil.
  - unfold setExpire, setExpireAt. destruct (num_ltb _ _); by apply Hset.
  - by apply Hset.
  - by apply Hset.
  - exact Hclean.
  - exact Hclean.
Qed.

(** A call that does not write [k] leaves the data record of [k] as it is,
    or removes it. *)
Lemma exec_lookup_untouched (k : string) (o : op value) (now : Z)
    (s : gmap string string) :
  writes_key k o = false →
  exec name o now s !! makeDataKey name k = s !! makeDataKey name k
  ∨ exec name o now s !! makeDataKey name k = None.
Proof.
  intros Hw.
  assert (Hset : ∀ key it e', key ≠ k →
             set_ name key it e' now s !! makeDataKey name k
             = s !! makeDataKey name k).
  { intros key it e' Hk. rewrite set__lookup_other; [done | |].
    - by intros ?%makeDataKey_inj.
    - apply makeDataKey_ne_makeKey. }
  assert (Huntil : ∀ key v e', key ≠ k →
             setItemUntil name key v e' now s !! makeDataKey name k
             = s !! makeDataKey name k).
  { intros key v e' Hk. unfold setItemUntil.
    destruct (JSON_stringify v); [by apply Hset | done]. }
  assert (Hclean : clean name now s !! makeDataKey name k
                   = s !! makeDataKey name k
                   ∨ clean name now s !! makeDataKey name k = None).
  { rewrite clean_lookup. destruct (num_gtb _ _); [by left |].
    destruct (stale _ _ _ _); [by right | by left]. }
  destruct o as [key v ex|key v e'|key v|key ex|key e'|key|key|];
    simpl in Hw; try apply bool_decide_eq_false in Hw; simpl.
  - left. unfold setItem. destruct (num_ltb _ _); by apply Huntil.
  - left. by apply Huntil.
  - left. by apply Huntil.
  - left. unfold setExpire, setExpireAt.
    destruct (num_ltb _ _); by apply Hset.
  - left. by apply Hset.
  - left. by apply Hset.
  - exact Hclean.
  - exact Hclean.
Qed.

Lemma run_lookup_untouched (k : string) (calls : list (Z * op value))
    (s : gmap string string) :
  leaves_key k calls = true →
  run name calls s !! makeDataKey name k = s !! makeDataKey name k
  ∨ run name calls s !! makeDataKey name k = None.
Proof.
  revert s. induction calls as [|[t o] calls IH]; intros s; [by left |].
  cbn [leaves_key forallb snd]. intros [Hw Hl]%andb_true_iff.
  apply negb_true_iff in Hw. unfold run. cbn [foldl fst snd].
  fold (run name calls (exec name o t s)).
  destruct (IH (exec name o t s) Hl) as [Heq|Hnone]; [| by right].
  rewrite Heq.
  destruct (exec_lookup_untouched k o t s Hw) as [->| ->]; [by left | by right].
Qed.

(** A [clean] changes nothing of what [$get] reads from then on. *)
Lemma get__after_clean (k : string) (now t : Z) (s : gmap string string) :
  now <= t → get_ name k t (clean name now s) = get_ name k t s.
Proof.
  intros Hle.
  destruct (clean name now s !! makeDataKey name k) as [v|] eqn:Hc.
  - apply get__ext. rewrite Hc. symmetry. by eapply clean_lookup_Some.
  - rewrite (get__absent _ _ _ _ Hc). symmetry.
    apply item_None_NULL_DATA.
    rewrite clean_lookup in Hc.
    destruct (num_gtb _ _); [by rewrite get__absent |].
    destruct (checkFresh (expireAt (get_ name k now s)) now) eqn:Hf.
    { rewrite (stale_fresh _ _ _ _ Hf) in Hc. by rewrite get__absent. }
    apply (get__later_None k now t s Hle).
    destruct (get__cases name k now s) as [->|(raw & e & _ & _ & He & Hg)];
      [done |].
    rewrite Hg in Hf. simpl in Hf. congruence.
Qed.

(** A call that does not write [k] changes nothing of what [$get] reads
    for [k] from then on. *)
Lemma get__after_exec (k : string) (o : op value) (now t : Z)
    (s : gmap string string) :
  writes_key k o = false → now <= t →
  get_ name k t (exec name o now s) = get_ name k t s.
Proof.
  intros Hw Hle.
  assert (Hset : ∀ key it e', key ≠ k →
             get_ name k t (set_ name key it e' now s) = get_ name k t s).
  { intros key it e' Hk. apply get__ext. rewrite set__lookup_other; [done | |].
    - by intros ?%makeDataKey_inj.
    - apply makeDataKey_ne_makeKey. }
  assert (Huntil : ∀ key v e', key ≠ k →
             get_ name k t (setItemUntil name key v e' now s)
             = get_ name k t s).
  { intros key v e' Hk. unfold setItemUntil.
    destruct (JSON_stringify v); [by apply Hset | done]. }
  destruct o as [key v ex|key v e'|key v|key ex|key e'|key|key|];
    simpl in Hw; try apply bool_decide_eq_false in Hw; simpl.
  - unfold setItem. destruct (num_ltb _ _); by apply Huntil.
  - by apply Huntil.
  - by apply Huntil.
  - unfold setExpire, setExpireAt. destruct (num_ltb _ _); by apply Hset.
  - by apply Hset.
  - by apply Hset.
  - by apply get__after_clean.
  - by apply get__after_clean.
Qed.



(** What the scan leaves of the namespace is fresh, the record of the key
    [__proto__] apart, which the scan never visits. *)
Lemma sweep_survivor (now : Z) (s : gmap string string) (key raw : string) :
  key ≠ "__proto__" → 1 <= now →
  sweep name now s !! makeDataKey name key = Some raw →
  s !! makeDataKey name key = Some raw
  ∧ ∃ e, decode_expireAt raw = Some e ∧ checkFresh e now = true.
Proof.
  intros Hk Hnow. rewrite sweep_lookup, (stale_plain_key _ _ _ _ Hk).
  destruct (checkFresh (expireAt (get_ name key now s)) now) eqn:Hf;
    [| done]. simpl.
  intros Hraw. split; [done |].
  rewrite (get__decode _ _ _ _ _ Hraw) in Hf.
  destruct (decode_expireAt raw) as [e|].
  - destruct (checkFresh e now) eqn:He; [by exists e |].
    simpl in Hf. unfold checkFresh in Hf. simpl in Hf.
    apply Z.ltb_lt in Hf. lia.
  - simpl in Hf. unfold checkFresh in Hf. simpl in Hf.
    apply Z.ltb_lt in Hf. lia.
Qed.

End MoreFacts.

(** ** Expiration management, the codec and the scan *)

Section Extras.

Context {parser : NumberParser} {value : Type} `{!JSON value}.
Variable name : string.

(** X1. [setExpireAt(k, T')] on a fresh entry, with a [T'] that is fresh,
    rewrites the record with the payload it had and the new expiration:
    from then on the entry reads with that payload until [T'], and as
    nothing after. *)
Theorem setExpireAt_moves_expiry (k it : string) (T T' : number) (now : Z)
    (s : gmap string string) :
  get_ name k now s = {| expireAt := T; item := Some it |} →
  checkFresh T' now = true →
  let s' := setExpireAt name k T' now s in
  s' !! makeDataKey name k = Some (number_to_string T' +:+ ":" +:+ it)
  ∧ ∀ t, get_ name k t s'
         = if checkFresh T' t then {| expireAt := T'; item := Some it |}
           else NULL_DATA.
Proof.
  intros Hget Hf s'.
  assert (Hraw : s' !! makeDataKey name k
                 = Some (number_to_string T' +:+ ":" +:+ it)).
  { unfold s', setExpireAt. rewrite Hget. cbn [item].
    by apply set__fresh_lookup. }
  split; [done |]. intros t. by apply get__written.
Qed.

(** X2. [setExpireAt(k, T')] writes nothing and deletes the data record of
    [k] when [$get] reads no entry for [k] (whatever [T'] is), and when
    [T'] is not fresh: it then does what [removeItem(k)] does. *)
Theorem setExpireAt_removes (k : string) (T' : number) (now : Z)
    (s : gmap string string) :
  item (get_ name k now s) = None ∨ checkFresh T' now = false →
  setExpireAt name k T' now s = removeItem name k now s
  ∧ setExpireAt name k T' now s !! makeDataKey name k = None.
Proof.
  intros H. unfold removeItem. rewrite set__remove.
  assert (Hs : setExpireAt name k T' now s = delete (makeDataKey name k) s).
  { unfold setExpireAt. destruct H as [->|Hf]; [done |].
    destruct (item (get_ name k now s)); [by apply set__stale | done]. }
  rewrite Hs. split; [done | apply lookup_delete_eq].
Qed.

(** X3. [setExpire] on a fresh entry keeps its payload.  With a negative
    TTL the entry never expires: it reads at every later instant.  With a
    positive TTL it reads until [now + ttl * 1000], and as nothing from
    then on. *)
Theorem setExpire_sets_ttl (k it : string) (T ttl : number) (now : Z)
    (s : gmap string string) :
  get_ name k now s = {| expireAt := T; item := Some it |} →
  let s' := setExpire name k ttl now s in
  let e := num_add (Fin now) (num_mul ttl (Fin 1000)) in
  (num_ltb ttl (Fin 0) = true →
   ∀ t, get_ name k t s' = {| expireAt := Fin (-1); item := Some it |})
  ∧ (num_gtb ttl (Fin 0) = true →
     ∀ t, get_ name k t s'
          = if checkFresh e t then {| expireAt := e; item := Some it |}
            else NULL_DATA).
Proof.
  intros Hget s' e. split.
  - intros Hneg t. unfold s', setExpire, setExpireAt. rewrite Hneg, Hget.
    cbn [item]. by rewrite (get__written name k t _ (Fin (-1)) it);
      [| apply set__fresh_lookup].
  - intros Hpos t.
    assert (Hlt : num_ltb ttl (Fin 0) = false)
      by by destruct ttl as [| |[]|].
    assert (Hf : checkFresh e now = true).
    { unfold e, checkFresh. destruct ttl as [| |z|]; try done. simpl in *.
      destruct (Z.eqb_spec (now + z * 1000) (-1)); [done |].
      apply Z.ltb_lt. apply Z.ltb_lt in Hpos. lia. }
    unfold s', setExpire, setExpireAt. rewrite Hlt, Hget. cbn [item].
    apply get__written. by apply set__fresh_lookup.
Qed.

(** X4. The entry codec round trip: what [$get] reads, at any instant, from
    the store that [$set] returns is the payload and the expiration that
    were written, colons in the payload included, as long as that
    expiration is fresh; a [null] payload or an expiration that is not
    fresh at the time of the write leaves nothing to read. *)
Theorem set__get__roundtrip (k : string) (it : option string) (e : number)
    (now t : Z) (s : gmap string string) :
  get_ name k t (set_ name k it e now s)
  = match it with
    | Some payload =>
        if checkFresh e now && checkFresh e t
        then {| expireAt := e; item := Some payload |}
        else NULL_DATA
    | None => NULL_DATA
    end.
Proof.
  destruct it as [payload|].
  - destruct (checkFresh e now) eqn:Hf; cbn [andb].
    + apply get__written. by apply set__fresh_lookup.
    + rewrite (set__stale _ _ _ _ _ _ Hf). apply get__absent, lookup_delete_eq.
  - rewrite set__remove. apply get__absent, lookup_delete_eq.
Qed.

(** X5. No call of the facade reads or writes outside its namespace: a
    record of the underlying store whose key is neither a data key of the
    namespace nor its sentinel key is the same after the call. *)
Theorem facade_leaves_foreign_keys (o : op value) (now : Z)
    (s : gmap string string) (sk : string) :
  startsWith (makeDataKey name EmptyString) sk = false →
  sk ≠ makeKey name "next" →
  exec name o now s !! sk = s !! sk.
Proof.
  intros Hsw Hnk.
  assert (Hset : ∀ key it e, set_ name key it e now s !! sk = s !! sk).
  { intros key it e. apply set__lookup_other; [| done].
    intros ->. by rewrite startsWith_makeDataKey in Hsw. }
  assert (Huntil : ∀ key v e, setItemUntil name key v e now s !! sk = s !! sk).
  { intros key v e. unfold setItemUntil.
    destruct (JSON_stringify v); [apply Hset | done]. }
  assert (Hclean : clean name now s !! sk = s !! sk).
  { rewrite clean_lookup. unfold stale. rewrite Hsw. simpl.
    by destruct (num_gtb _ _). }
  destruct o as [key v ex|key v e|key v|key ex|key e|key|key|]; simpl.
  - unfold setItem. destruct (num_ltb _ _); apply Huntil.
  - apply Huntil.
  - apply Huntil.
  - unfold setExpire, setExpireAt. destruct (num_ltb _ _); apply Hset.
  - apply Hset.
  - apply Hset.
  - exact Hclean.
  - exact Hclean.
Qed.

(** X6. No eviction before the expiration: the data record of [k] is
    untouched by any calls that do not write [k], [clean] and [getItem]
    included, as long as each is made when the record is still fresh. *)
Theorem entry_survives_until_expiry (k raw : string) (e : number)
    (calls : list (Z * op value)) (s : gmap string string) :
  s !! makeDataKey name k = Some raw →
  decode_expireAt raw = Some e →
  leaves_key k calls = true →
  forallb (λ c, checkFresh e c.1) calls = true →
  run name calls s !! makeDataKey name k = Some raw.
Proof.
  revert s. induction calls as [|[t o] calls IH]; intros s Hraw He; [done |].
  cbn [leaves_key forallb fst snd].
  intros [Hw Hl]%andb_true_iff [Hf Hfs]%andb_true_iff.
  apply negb_true_iff in Hw. unfold run. cbn [foldl fst snd].
  apply IH; [| done | done | done].
  by apply (exec_keeps_fresh name k raw e).
Qed.


(** X8. When [clean] runs its scan (the sentinel is not after the clock),
    at a clock reading of 1 or more, every data record of the namespace
    left in the store, under a key other than [__proto__], has an
    expiration part that [Number] reads as fresh: the expired records and
    the malformed ones are gone.  The record of the key [__proto__] is the
    one that the scan never visits. *)
Theorem scan_leaves_only_fresh (now : Z) (s : gmap string string)
    (key raw : string) :
  key ≠ "__proto__" →
  1 <= now →
  num_gtb (getNext name s) (Fin now) = false →
  clean name now s !! makeDataKey name key = Some raw →
  s !! makeDataKey name key = Some raw
  ∧ ∃ e, decode_expireAt raw = Some e ∧ checkFresh e now = true.
Proof.
  intros Hk Hnow Hscan. unfold clean. rewrite Hscan.
  by apply sweep_survivor.
Qed.

(** X9. In a consistent store, one where [getNext()] bounds the expiration
    of every decodable record from below, [clean] (and so the constructor)
    misses no due record under a key other than [__proto__]: such a data
    record left in the store whose expiration reads as a number is fresh,
    whether the fast path was taken or not. *)
Theorem clean_misses_no_due_record (now : Z) (s : gmap string string)
    (key raw : string) (e : number) :
  key ≠ "__proto__" →
  1 <= now →
  consistent name s = true →
  construct name now s !! makeDataKey name key = Some raw →
  decode_expireAt raw = Some e →
  isNaN e = false →
  checkFresh e now = true.
Proof.
  intros Hk Hnow [_ Hall]%consistent_spec. unfold construct, clean.
  destruct (num_gtb (getNext name s) (Fin now)) eqn:Hfast.
  - intros Hraw He Hn. specialize (Hall _ _ Hraw). unfold covered in Hall.
    rewrite startsWith_makeDataKey, He, Hn in Hall. simpl in Hall.
    unfold checkFresh. destruct (num_eqb e (Fin (-1))); [done |].
    rewrite Hn. unfold num_leb in Hall.
    destruct (getNext name s) as [| |b|], e as [| |z|]; simpl in *;
      try done.
    apply Z.ltb_lt in Hfast. apply negb_true_iff, Z.ltb_ge in Hall.
    apply Z.ltb_lt. lia.
  - intros Hraw He _.
    destruct (sweep_survivor name now s key raw Hk Hnow Hraw)
      as (_ & e' & He' & Hf).
    congruence.
Qed.

(** X10. An expired entry never comes back: on one store, whatever [$get]
    reads for [k] at an instant it reads, the same, at every earlier
    instant; so a key that reads as nothing reads as nothing from then
    on. *)
Theorem readable_earlier (k : string) (now now' : Z)
    (s : gmap string string) :
  now <= now' →
  (item (get_ name k now' s) ≠ None →
   get_ name k now s = get_ name k now' s)
  ∧ (item (get_ name k now s) = None →
     (getItem name k now' s).1 = null).
Proof.
  intros Hle. split; [by apply get__earlier |].
  intros Hnone. rewrite getItem_value.
  by rewrite (get__later_None name k now now' s Hle Hnone).
Qed.

End Extras.

(** ** Two writes *)

Section CommuteFacts.

Context {parser : NumberParser}.
Variable name : string.







End CommuteFacts.

(** ** Reads, failures, keys and the size of the store *)

Section MoreExtras.

Context {parser : NumberParser} {value : Type} `{!JSON value}.
Variable name : string.

(** X11. What [getItem(k)] returns depends on the calls that write [k]
    only: after any calls that do not write [k], made no later than the
    read ([clean], the constructor and reads of any key included),
    [getItem(k)] returns what it would have returned without them. *)
Theorem reads_unaffected_by_other_calls (k : string) (t : Z)
    (calls : list (Z * op value)) (s : gmap string string) :
  leaves_key k calls = true →
  forallb (λ c, c.1 <=? t) calls = true →
  (getItem name k t (run name calls s)).1 = (getItem name k t s).1.
Proof.
  intros Hl Ht. rewrite !getItem_value. f_equal. f_equal.
  revert s. induction calls as [|[t0 o] calls IH]; intros s; [done |].
  cbn [leaves_key forallb fst snd] in Hl, Ht.
  apply andb_true_iff in Hl as [Hw Hl]. apply andb_true_iff in Ht as [Ht0 Ht].
  apply negb_true_iff in Hw. apply Z.leb_le in Ht0.
  unfold run. cbn [foldl fst snd]. fold (run name calls (exec name o t0 s)).
  rewrite (IH Hl Ht). by apply get__after_exec.
Qed.

(** X12. When [JSON.stringify] throws, [setItemUntil], [setItem] and
    [updateItem] change nothing: no record is written, and none is
    deleted either, even when the expiration given is past. *)
Theorem stringify_failure_is_noop (k : string) (v : value) (e ttl : number)
    (now : Z) (s : gmap string string) :
  JSON_stringify v = Thrown →
  setItemUntil name k v e now s = s
  ∧ setItem name k v ttl now s = s
  ∧ updateItem name k v now s = s.
Proof.
  intros Hv.
  assert (Hu : ∀ e', setItemUntil name k v e' now s = s).
  { intros e'. unfold setItemUntil. by rewrite Hv. }
  split; [apply Hu |]. split.
  - unfold setItem. destruct (num_ltb _ _); apply Hu.
  - apply Hu.
Qed.

(** X13. The composite keys never collide: two logical keys have distinct
    data keys, and no data key is the sentinel key.  So removing any key,
    the one called [next] included, leaves the sentinel record alone. *)
Theorem composite_keys_separate (k1 k2 : string) (now : Z)
    (s : gmap string string) :
  (makeDataKey name k1 = makeDataKey name k2 → k1 = k2)
  ∧ makeDataKey name k1 ≠ makeKey name k2
  ∧ sentinel name (removeItem name k1 now s) = sentinel name s.
Proof.
  split; [apply makeDataKey_inj |]. split; [apply makeDataKey_ne_makeKey |].
  unfold removeItem. rewrite set__remove. apply sentinel_delete_data.
Qed.

(** X14. Nested namespaces interfere: the sentinel of a store named
    [name.sub] is, for the store named [name], the data record of the key
    [sub:next].  Holding no colon, it reads as nothing there, and a scan of
    [name], at a clock reading of 1 or more, deletes it. *)
Theorem nested_namespace_sentinel_evicted (sub sv : string) (now : Z)
    (s : gmap string string) :
  1 <= now →
  num_gtb (getNext name s) (Fin now) = false →
  sentinel (name +:+ "." +:+ sub) s = Some sv →
  indexOf ":" sv < 1 →
  makeKey (name +:+ "." +:+ sub) "next"
  = makeDataKey name (sub +:+ ":" +:+ "next")
  ∧ sentinel (name +:+ "." +:+ sub) (clean name now s) = None.
Proof.
  intros Hnow Hscan Hsv Hcolon.
  assert (Hkey : makeKey (name +:+ "." +:+ sub) "next"
                 = makeDataKey name (sub +:+ ":" +:+ "next")).
  { unfold makeKey, makeDataKey. by rewrite !append_assoc. }
  split; [done |].
  unfold sentinel, Storage.getItem in *. rewrite Hkey in *.
  rewrite clean_lookup, Hscan, stale_plain_key; [| apply colon_not_proto].
  rewrite (get__decode _ _ _ _ _ Hsv). unfold decode_expireAt.
  destruct (Z.ltb_spec (indexOf ":" sv) 1); [| lia].
  simpl. unfold checkFresh. simpl.
  by destruct (Z.ltb_spec now 1); [lia |].
Qed.

(** X15. A write overrides a removal: with a value that serialises,
    [setItemUntil] after [removeItem] of the same key gives the store that
    [setItemUntil] alone gives; and removing twice is removing once. *)
Theorem write_overrides_remove (k it : string) (v : value) (e : number)
    (now now' : Z) (s : gmap string string) :
  JSON_stringify v = Returned it →
  setItemUntil name k v e now (removeItem name k now' s)
  = setItemUntil name k v e now s
  ∧ removeItem name k now (removeItem name k now' s)
    = removeItem name k now' s.
Proof.
  intros Hv. unfold removeItem. rewrite !set__remove.
  split; [| apply delete_delete_eq].
  rewrite !(setItemUntil_returned _ _ _ _ _ _ _ Hv).
  destruct (checkFresh e now) eqn:Hf.
  - rewrite !(set__fresh _ _ _ _ _ _ Hf). cbv zeta.
    by rewrite getNext_delete_data, insert_delete_eq.
  - rewrite !(set__stale _ _ _ _ _ _ Hf). apply delete_delete_eq.
Qed.

(** X16. The overlay adds at most two records per call, a data record and
    the sentinel; [getItem], [clean] and [removeItem] add none. *)
Theorem facade_growth (o : op value) (now : Z) (s : gmap string string) :
  (Storage.length (exec name o now s) <= Storage.length s + 2)%nat
  ∧ match o with
    | GetItem _ | Clean | RemoveItem _ =>
        (Storage.length (exec name o now s) <= Storage.length s)%nat
    | _ => True
    end.
Proof.
  unfold Storage.length.
  assert (Hins : ∀ i x (m : gmap string string),
             (size (<[i:=x]> m) <= S (size m))%nat).
  { intros i x m. rewrite map_size_insert. destruct (m !! i); simpl; lia. }
  assert (Hdel : ∀ i (m : gmap string string),
             (size (delete i m) <= size m)%nat).
  { intros i m. rewrite map_size_delete. destruct (m !! i); simpl; lia. }
  assert (Hset : ∀ key it e,
             (size (set_ name key it e now s) <= size s + 2)%nat).
  { intros key it e. destruct it as [it|];
      [| rewrite set__remove; specialize (Hdel (makeDataKey name key) s); lia].
    destruct (checkFresh e now) eqn:Hf.
    - rewrite (set__fresh _ _ _ _ _ _ Hf). cbv zeta.
      pose proof (Hins (makeDataKey name key)
                    (number_to_string e +:+ ":" +:+ it) s) as H1.
      destruct (num_gtb _ _); [lia |].
      pose proof (Hins (makeKey name "next") (toFixed e)
                    (<[makeDataKey name key :=
                         number_to_string e +:+ ":" +:+ it]> s)) as H2.
      lia.
    - rewrite (set__stale _ _ _ _ _ _ Hf).
      specialize (Hdel (makeDataKey name key) s). lia. }
  assert (Huntil : ∀ key v e,
             (size (setItemUntil name key v e now s) <= size s + 2)%nat).
  { intros key v e. unfold setItemUntil.
    destruct (JSON_stringify v); [apply Hset | lia]. }
  assert (Hclean : (size (clean name now s) <= size s)%nat).
  { apply map_subseteq_size, map_subseteq_spec.
    intros i x. apply clean_lookup_Some. }
  destruct o as [key v ex|key v e|key v|key ex|key e|key|key|]; simpl.
  - split; [| done]. unfold setItem. destruct (num_ltb _ _); apply Huntil.
  - split; [apply Huntil | done].
  - split; [apply Huntil | done].
  - split; [| done]. unfold setExpire, setExpireAt.
    destruct (num_ltb _ _); apply Hset.
  - split; [apply Hset | done].
  - unfold removeItem. rewrite set__remove.
    specialize (Hdel (makeDataKey name key) s). lia.
  - lia.
  - lia.
Qed.


(** X18. The object that [$list] returns has one own property for each data
    record of the namespace whose logical key is not [__proto__], under
    that key, and no other: its value is the expiration that [Number] reads
    in the record when that is fresh, and 1 when the record is expired or
    malformed.  It has no property named [__proto__], whatever the store
    holds. *)
Theorem list__entries (now : Z) (s : gmap string string) (key : string) :
  list_ name now s !! key
  = if String.eqb key "__proto__" then None
    else match s !! makeDataKey name key with
         | None => None
         | Some raw =>
             Some match decode_expireAt raw with
                  | Some e => if checkFresh e now then e else Fin 1
                  | None => Fin 1
                  end
         end.
Proof.
  rewrite list__lookup. destruct (String.eqb key "__proto__"); [done |].
  destruct (s !! makeDataKey name key) as [raw|] eqn:Hraw; [| done].
  rewrite (get__decode _ _ _ _ _ Hraw).
  destruct (decode_expireAt raw) as [e|]; [| done].
  by destruct (checkFresh e now).
Qed.

(** X19. Without a sentinel that reads as a number other than zero (the
    record is missing, or holds text that is no number, or zero),
    [getNext()] is [Infinity] and [clean] never evicts anything, at any
    clock reading. *)
Theorem clean_without_sentinel (now : Z) (s : gmap string string) :
  sentinel name s = None
  ∨ (∃ sv, sentinel name s = Some sv
       ∧ (Number_of_string sv = NaN ∨ Number_of_string sv = Fin 0)) →
  getNext name s = PosInf ∧ clean name now s = s.
Proof.
  intros H.
  assert (Hn : getNext name s = PosInf).
  { unfold getNext. fold (sentinel name s).
    destruct H as [Hs|(sv & Hs & Hn)]; rewrite Hs; simpl; [done |].
    by destruct Hn as [->| ->]. }
  split; [done |]. unfold clean. by rewrite Hn.
Qed.

(** X20. No resurrection: once [$get] reads nothing for [k] (the key was
    removed, or never written, or its entry has expired), [getItem(k)]
    returns [null] at every later instant, whatever calls that do not
    write [k] are made in between. *)
Theorem no_resurrection (k : string) (t t' : Z) (calls : list (Z * op value))
    (s : gmap string string) :
  item (get_ name k t s) = None →
  t <= t' →
  leaves_key k calls = true →
  (getItem name k t' (run name calls s)).1 = null.
Proof.
  intros Hnone Hle Hl.
  destruct (run_lookup_untouched name k calls s Hl) as [Heq|Hgone];
    [| by apply getItem_absent].
  rewrite getItem_value, (get__ext name k t' _ s Heq).
  by rewrite (get__later_None name k t t' s Hle Hnone).
Qed.

(** X21. The scan of [clean] never reaches the key [__proto__]: the object
    that [$list] returns has no property of that name, and [clean], at any
    clock reading and whatever the sentinel says, leaves the data record of
    that key as it is, expired or not.  Only a write to the key itself
    ([removeItem], or a write that is not fresh) deletes it. *)
Theorem proto_record_never_evicted (now now' : Z) (s : gmap string string) :
  list_ name now s !! "__proto__" = None
  ∧ clean name now s !! makeDataKey name "__proto__"
    = s !! makeDataKey name "__proto__"
  ∧ (getItem name "__proto__" now s).2 !! makeDataKey name "__proto__"
    = s !! makeDataKey name "__proto__"
  ∧ removeItem name "__proto__" now' (clean name now s)
    !! makeDataKey name "__proto__" = None.
Proof.
  assert (Hclean : clean name now s !! makeDataKey name "__proto__"
                   = s !! makeDataKey name "__proto__").
  { rewrite clean_lookup, stale_data_key. simpl.
    by destruct (num_gtb _ _). }
  split; [by rewrite list__lookup |]. split; [done |].
  split; [by rewrite getItem_store |].
  unfold removeItem. rewrite set__remove. apply lookup_delete_eq.
Qed.

End MoreExtras.

(** * The model on concrete stores *)

(** The decimal reading of numbers, proved in [NumberFacts] to read back
    what the template literal prints. *)
#[global] Instance decimal_numbers : NumberParser := {|
  Number_of_string := Number_of_decimal;
  Number_of_string_to_string := Number_of_decimal_to_string
|}.

(** The scenario of the test suite: namespace [mock], key [one], value
    [mock1], ten seconds to live, written when the clock reads 1000. *)
Example scenario_at_9s :
  let s1 := setItem "mock" "one" (JStr "mock1") (Fin 10) 1000 ∅ in
  let r := getItem "mock" "one" 10000 s1 in
  r.1 = JStr "mock1" ∧ Storage.length r.2 = 2%nat.
Proof. vm_compute. done. Qed.

Example scenario_at_11s :
  let s1 := setItem "mock" "one" (JStr "mock1") (Fin 10) 1000 ∅ in
  let s2 := (getItem "mock" "one" 10000 s1).2 in
  let r := getItem "mock" "one" 12000 s2 in
  r.1 = JNull ∧ Storage.length r.2 = 1%nat
  ∧ map_to_list r.2 = [("mock:next", "11000")].
Proof. vm_compute. done. Qed.

Example scenario_never_expires :
  (getItem "mock" "one" 99000
     (setItem "mock" "one" (JStr "mock1") (Fin (-1)) 1000 ∅)).1
  = JStr "mock1".
Proof. vm_compute. done. Qed.

(** Without its sentinel, a record is not seen by [clean] once due: the
    sentinel that a later write seeds lies beyond its expiration. *)
Example due_record_outlives_clean :
  let s := setItemUntil "mock" "b" (JNum 2) (Fin 9000) 1000
             {["mock.a" := "5000:1"]} in
  sentinel "mock" s = Some "9000"
  ∧ clean "mock" 6000 s !! "mock.a" = Some "5000:1"
  ∧ (getItem "mock" "a" 6000 s).1 = JNull.
Proof. vm_compute. done. Qed.



(** C2, at a concrete store. *)
Lemma setItem_getItem_roundtrip_witness :
  JSON_stringify (JNum 42) = Returned "42"
  ∧ (getItem "mock" "one" 5000
       (setItem "mock" "one" (JNum 42) (Fin (-1)) 1000 ∅)).1 = JNum 42.
Proof.
  assert (Hv : JSON_stringify (JNum 42) = Returned "42")
    by (vm_compute; reflexivity).
  assert (Hp : JSON_parse "42" = Returned (JNum 42))
    by (vm_compute; reflexivity).
  split; [exact Hv |].
  exact (proj2 (@setItem_getItem_roundtrip decimal_numbers json codec "mock" "one" "42"
                  (JNum 42) 1000 5000 ∅ Hv) Hp).
Defined.

(** C3: the bound, read as an invariant of its own, is not preserved.  A
    store holds a data record of the namespace and no sentinel; the
    constructor's [clean] has run; the bound holds, the sentinel being
    absent.  A later-expiring write then seeds the sentinel above the
    expiration of the record that was there.

    Nor does the bound hold of an expiration that is not a whole number of
    milliseconds: on the empty store, [setItemUntil] with 1500.7 writes the
    record under 1500.7 and the sentinel 1501, which [toFixed()] rounded
    up. *)
Lemma sentinel_bound_not_inductive :
  (let s := construct "mock" 1000 {["mock.a" := "5000:1"]} in
   let s' := exec "mock" (SetItemUntil "b" (JNum 2) (Fin 9000)) 1000 s in
   sentinel_lower_bound "mock" s 1000
   ∧ sentinel "mock" s' = Some "9000"
   ∧ fresh_record "mock" s' 1000 "a" (Fin 5000)
   ∧ ¬ sentinel_lower_bound "mock" s' 1000)
  ∧ (let t := Fractional.setItemUntil "mock" "a" (JNum 1)
                (Fractional.Fin 15007) 1000 ∅ in
     t !! "mock.a" = Some "1500.7:1"
     ∧ t !! "mock:next" = Some "1501"
     ∧ Fractional.get_ "mock" "a" 1000 t
       = {| Fractional.expireAt := Fractional.Fin 15007;
            Fractional.item := Some "1" |}
     ∧ Fractional.Number_of_string "1501" = Fractional.Fin 15010
     ∧ Fractional.num_gtb (Fractional.Number_of_string "1501")
         (Fractional.Fin 15007) = true).
Proof.
  split; [| vm_compute; repeat split; reflexivity].
  cbv zeta.
  assert (Hfresh : fresh_record "mock"
            (exec "mock" (SetItemUntil "b" (JNum 2) (Fin 9000)) 1000
               (construct "mock" 1000 {["mock.a" := "5000:1"]}))
            1000 "a" (Fin 5000)).
  { exists "1". vm_compute. reflexivity. }
  assert (Hsent : sentinel "mock"
            (exec "mock" (SetItemUntil "b" (JNum 2) (Fin 9000)) 1000
               (construct "mock" 1000 {["mock.a" := "5000:1"]}))
          = Some "9000") by (vm_compute; reflexivity).
  split; [| split; [| split]].
  - intros sv key e Hsv. vm_compute in Hsv. discriminate Hsv.
  - exact Hsent.
  - exact Hfresh.
  - intros Hb. specialize (Hb "9000" "a" (Fin 5000) Hsent Hfresh).
    vm_compute in Hb. apply Hb. reflexivity.
Qed.

(** C3 as amended, at a concrete run from the empty store. *)
Lemma sentinel_bound_preserved_witness :
  let calls := [(1000, SetItemUntil "a" (JNum 1) (Fin 5000));
                (1000, SetItemUntil "b" (JNum 2) (Fin 9000));
                (2000, GetItem "a")] in
  consistent "mock" ∅ = true
  ∧ consistent "mock" (run "mock" calls ∅) = true
  ∧ sentinel "mock" (run "mock" calls ∅) = Some "5000"
  ∧ sentinel_lower_bound "mock" (run "mock" calls ∅) 2000.
Proof.
  cbv zeta.
  assert (Hc : consistent "mock" ∅ = true) by (vm_compute; reflexivity).
  assert (Hok : clock_ok [(1000, SetItemUntil "a" (JNum 1) (Fin 5000));
                          (1000, SetItemUntil "b" (JNum 2) (Fin 9000));
                          (2000, @GetItem json "a")] = true)
    by reflexivity.
  destruct (@sentinel_bound_preserved decimal_numbers json codec "mock"
              [(1000, SetItemUntil "a" (JNum 1) (Fin 5000));
               (1000, SetItemUntil "b" (JNum 2) (Fin 9000));
               (2000, GetItem "a")] ∅ Hok Hc) as [H1 H2].
  split; [exact Hc |]. split; [exact H1 |].
  split; [vm_compute; reflexivity | exact (H2 2000)].
Defined.

(** C4, once for each case. *)
Lemma getItem_null_cases_witness :
  (getItem "mock" "k" 6000 ∅).1 = JNull
  ∧ (getItem "mock" "k" 6000 {["mock.k" := "5000:1"]}).1 = JNull
  ∧ (getItem "mock" "k" 6000 {["mock.k" := "soon:1"]}).1 = JNull
  ∧ (getItem "mock" "k" 6000 {["mock.k" := "-1:oops"]}).1 = JNull.
Proof.
  split; [| split; [| split]].
  - apply (@getItem_null_cases decimal_numbers json codec "mock" "k" 6000 ∅).
    left. vm_compute. reflexivity.
  - apply (@getItem_null_cases decimal_numbers json codec "mock" "k" 6000
             {["mock.k" := "5000:1"]}).
    right. left. exists "5000:1", (Fin 5000).
    repeat split; vm_compute; reflexivity.
  - apply (@getItem_null_cases decimal_numbers json codec "mock" "k" 6000
             {["mock.k" := "soon:1"]}).
    right. right. left. exists "soon:1". split; [vm_compute; reflexivity |].
    right. vm_compute. reflexivity.
  - apply (@getItem_null_cases decimal_numbers json codec "mock" "k" 6000
             {["mock.k" := "-1:oops"]}).
    right. right. right. exists "-1:oops". split; vm_compute; reflexivity.
Defined.

(** C5, at a concrete store. *)
Lemma updateItem_keeps_expireAt_witness :
  let s := setItemUntil "mock" "k" (JNum 1) (Fin 9000) 1000 ∅ in
  let s' := updateItem "mock" "k" (JNum 2) 2000 s in
  get_ "mock" "k" 2000 s = {| expireAt := Fin 9000; item := Some "1" |}
  ∧ s' !! "mock.k" = Some "9000:2"
  ∧ get_ "mock" "k" 2000 s' = {| expireAt := Fin 9000; item := Some "2" |}.
Proof.
  cbv zeta.
  assert (Hg : get_ "mock" "k" 2000
                 (setItemUntil "mock" "k" (JNum 1) (Fin 9000) 1000 ∅)
               = {| expireAt := Fin 9000; item := Some "1" |})
    by (vm_compute; reflexivity).
  assert (Hv : JSON_stringify (JNum 2) = Returned "2")
    by (vm_compute; reflexivity).
  destruct (@updateItem_keeps_expireAt decimal_numbers json codec "mock" "k" "1" "2" (JNum 2)
              (Fin 9000) 2000
              (setItemUntil "mock" "k" (JNum 1) (Fin 9000) 1000 ∅) Hg Hv)
    as (H1 & H2 & _).
  split; [exact Hg |]. split; [exact H1 | exact H2].
Defined.

(** C6: a record whose payload does not decode reads as [null], yet it is
    fresh, and [updateItem] keeps its expiration: the new value is
    retrievable afterwards. *)
Lemma updateItem_revives_undecodable :
  let s : gmap string string := {["mock.k" := "-1:oops"]} in
  let s' := updateItem "mock" "k" (JStr "x") 5000 s in
  record_corrupted "mock" s "k"
  ∧ (getItem "mock" "k" 5000 s).1 = null
  ∧ is_Some (s' !! "mock.k")
  ∧ (getItem "mock" "k" 5000 s').1 = JStr "x"
  ∧ (getItem "mock" "k" 5000 s').1 ≠ null.
Proof.
  cbv zeta. split; [| split; [| split; [| split]]].
  - right. exists "-1:oops". split; vm_compute; reflexivity.
  - vm_compute. reflexivity.
  - eexists. vm_compute. reflexivity.
  - vm_compute. reflexivity.
  - vm_compute. discriminate.
Qed.

(** C6 as amended, once for each case. *)
Lemma updateItem_unreadable_witness :
  updateItem "mock" "k" (JStr "x") 6000 ∅ !! "mock.k" = None
  ∧ updateItem "mock" "k" (JStr "x") 6000 {["mock.k" := "5000:1"]}
    = removeItem "mock" "k" 6000 {["mock.k" := "5000:1"]}
  ∧ (getItem "mock" "k" 6000
       (updateItem "mock" "k" (JStr "x") 6000 {["mock.k" := "soon:1"]})).1
    = JNull.
Proof.
  set (it := String quote (String "x" (String quote EmptyString))).
  assert (Hv : JSON_stringify (JStr "x") = Returned it)
    by (vm_compute; reflexivity).
  assert (Hnow : 1 <= 6000) by lia.
  split; [| split].
  - apply (@updateItem_unreadable decimal_numbers json codec "mock" "k" it (JStr "x") 6000 ∅
             Hnow); [| exact Hv].
    left. vm_compute. reflexivity.
  - apply (@updateItem_unreadable decimal_numbers json codec "mock" "k" it (JStr "x") 6000
             {["mock.k" := "5000:1"]} Hnow); [| exact Hv].
    right. left. exists "5000:1", (Fin 5000).
    repeat split; vm_compute; reflexivity.
  - apply (@updateItem_unreadable decimal_numbers json codec "mock" "k" it (JStr "x") 6000
             {["mock.k" := "soon:1"]} Hnow); [| exact Hv].
    right. right. exists "soon:1". split; [vm_compute; reflexivity |].
    right. vm_compute. reflexivity.
Defined.

(** C9, at a concrete store: a past instant, [NaN], and a zero TTL. *)
Lemma setItemUntil_not_fresh_removes_witness :
  let s : gmap string string := {["mock.k" := "9000:1"]} in
  setItemUntil "mock" "k" (JNum 2) (Fin 500) 1000 s
  = removeItem "mock" "k" 1000 s
  ∧ setItemUntil "mock" "k" (JNum 2) NaN 1000 s = delete "mock.k" s
  ∧ setItem "mock" "k" (JNum 2) (Fin 0) 1000 s = removeItem "mock" "k" 1000 s.
Proof.
  cbv zeta.
  assert (Hv : JSON_stringify (JNum 2) = Returned "2")
    by (vm_compute; reflexivity).
  destruct (@setItemUntil_not_fresh_removes decimal_numbers json codec "mock" "k" "2" (JNum 2)
              (Fin 500) 1000 {["mock.k" := "9000:1"]} Hv eq_refl eq_refl)
    as (H1 & _ & H3).
  destruct (@setItemUntil_not_fresh_removes decimal_numbers json codec "mock" "k" "2" (JNum 2)
              NaN 1000 {["mock.k" := "9000:1"]} Hv eq_refl eq_refl)
    as (_ & H2 & _).
  split; [exact H1 |]. split; [exact H2 |]. apply H3. lia.
Defined.

(** C10: a never-expiring write that goes through, on a store whose
    sentinel reads below -1, leaves the sentinel as it was. *)
Lemma never_expiring_write_keeps_lower_sentinel :
  let s : gmap string string := {["mock:next" := "-5"]} in
  let s1 := setItem "mock" "a" (JNum 1) (Fin (-1)) 1000 s in
  s1 !! "mock.a" = Some "-1:1"
  ∧ (getItem "mock" "a" 2000 s1).1 = JNum 1
  ∧ sentinel "mock" s1 = Some "-5"
  ∧ sentinel "mock" s1 ≠ Some "-1"
  ∧ getNext "mock" s1 = Fin (-5).
Proof. vm_compute. repeat split; done. Qed.

(** C10 as amended, at a concrete run: a dated write and a read follow the
    never-expiring write; the [clean] at 30000 then finds the two dated
    records and leaves the one that never expires. *)
Lemma never_expiring_pins_sentinel_witness :
  let s := setItem "mock" "a" (JNum 1) (Fin 10) 1000 ∅ in
  let s1 := setItem "mock" "b" (JNum 2) (Fin (-1)) 2000 s in
  let s2 := run "mock" [(3000, SetItem "c" (JNum 3) (Fin 5));
                        (4000, GetItem "a")] s1 in
  sentinel "mock" s = Some "11000"
  ∧ sentinel "mock" s1 = Some "-1"
  ∧ sentinel "mock" s2 = Some "-1"
  ∧ getNext "mock" s2 = Fin (-1)
  ∧ list_ "mock" 30000 s2 !! "a" = Some (Fin 1)
  ∧ clean "mock" 30000 s2 !! "mock.a" = None
  ∧ clean "mock" 30000 s2 !! "mock.c" = None
  ∧ clean "mock" 30000 s2 !! "mock.b" = Some "-1:2".
Proof.
  cbv zeta.
  assert (Hv : JSON_stringify (JNum 2) = Returned "2")
    by (vm_compute; reflexivity).
  assert (Hfloor : num_gtb (Fin (-1))
                     (getNext "mock"
                        (setItem "mock" "a" (JNum 1) (Fin 10) 1000 ∅)) = false)
    by (vm_compute; reflexivity).
  assert (Hnow : 0 <= 30000) by lia.
  destruct (@never_expiring_pins_sentinel decimal_numbers json codec "mock"
              "b" "2" (JNum 2) (Fin (-1)) 2000
              [(3000, SetItem "c" (JNum 3) (Fin 5)); (4000, GetItem "a")]
              (setItem "mock" "a" (JNum 1) (Fin 10) 1000 ∅)
              Hv eq_refl Hfloor eq_refl) as (_ & H1 & H2 & H3 & H4).
  destruct (H4 30000 Hnow) as (_ & _ & Hlist & Hclean).
  assert (Hk : "a" ≠ "__proto__") by discriminate.
  assert (Hraw : run "mock" [(3000, SetItem "c" (JNum 3) (Fin 5));
                             (4000, GetItem "a")]
                   (setItem "mock" "b" (JNum 2) (Fin (-1)) 2000
                      (setItem "mock" "a" (JNum 1) (Fin 10) 1000 ∅))
                 !! makeDataKey "mock" "a" = Some "11000:1")
    by (vm_compute; reflexivity).
  split; [vm_compute; reflexivity |]. split; [exact H1 |].
  split; [exact H2 |]. split; [exact H3 |].
  split; [rewrite (Hlist "a" "11000:1" Hk Hraw); vm_compute; reflexivity |].
  rewrite !Hclean. vm_compute. repeat split; reflexivity.
Defined.

(** ** The further properties on concrete stores *)

(** X1: an entry due at 9000 is moved to 5000. *)
Lemma setExpireAt_moves_expiry_witness :
  let s := setItemUntil "mock" "k" (JNum 1) (Fin 9000) 1000 ∅ in
  let s' := setExpireAt "mock" "k" (Fin 5000) 2000 s in
  s' !! "mock.k" = Some "5000:1"
  ∧ get_ "mock" "k" 4000 s' = {| expireAt := Fin 5000; item := Some "1" |}
  ∧ get_ "mock" "k" 6000 s' = NULL_DATA.
Proof.
  cbv zeta.
  assert (Hg : get_ "mock" "k" 2000
                 (setItemUntil "mock" "k" (JNum 1) (Fin 9000) 1000 ∅)
               = {| expireAt := Fin 9000; item := Some "1" |})
    by (vm_compute; reflexivity).
  assert (Hf : checkFresh (Fin 5000) 2000 = true) by reflexivity.
  destruct (setExpireAt_moves_expiry "mock" "k" "1" (Fin 9000) (Fin 5000) 2000
              (setItemUntil "mock" "k" (JNum 1) (Fin 9000) 1000 ∅) Hg Hf)
    as [H1 H2].
  split; [exact H1 |]. split; [exact (H2 4000) | exact (H2 6000)].
Defined.

(** X2: on a key that was never written, and with a past expiration. *)
Lemma setExpireAt_removes_witness :
  let s := setItemUntil "mock" "k" (JNum 1) (Fin 9000) 1000 ∅ in
  setExpireAt "mock" "other" (Fin 9000) 2000 s = removeItem "mock" "other" 2000 s
  ∧ setExpireAt "mock" "k" (Fin 1500) 2000 s !! "mock.k" = None.
Proof.
  cbv zeta.
  assert (H1 : item (get_ "mock" "other" 2000
                       (setItemUntil "mock" "k" (JNum 1) (Fin 9000) 1000 ∅))
               = None) by (vm_compute; reflexivity).
  assert (H2 : checkFresh (Fin 1500) 2000 = false) by reflexivity.
  split.
  - exact (proj1 (setExpireAt_removes "mock" "other" (Fin 9000) 2000
                    (setItemUntil "mock" "k" (JNum 1) (Fin 9000) 1000 ∅)
                    (or_introl H1))).
  - exact (proj2 (setExpireAt_removes "mock" "k" (Fin 1500) 2000
                    (setItemUntil "mock" "k" (JNum 1) (Fin 9000) 1000 ∅)
                    (or_intror H2))).
Defined.

(** X3: made permanent, and given two more seconds. *)
Lemma setExpire_sets_ttl_witness :
  let s := setItemUntil "mock" "k" (JNum 1) (Fin 9000) 1000 ∅ in
  get_ "mock" "k" 99000 (setExpire "mock" "k" (Fin (-1)) 2000 s)
  = {| expireAt := Fin (-1); item := Some "1" |}
  ∧ get_ "mock" "k" 3999 (setExpire "mock" "k" (Fin 2) 2000 s)
    = {| expireAt := Fin 4000; item := Some "1" |}
  ∧ get_ "mock" "k" 4000 (setExpire "mock" "k" (Fin 2) 2000 s) = NULL_DATA.
Proof.
  cbv zeta.
  assert (Hg : get_ "mock" "k" 2000
                 (setItemUntil "mock" "k" (JNum 1) (Fin 9000) 1000 ∅)
               = {| expireAt := Fin 9000; item := Some "1" |})
    by (vm_compute; reflexivity).
  destruct (setExpire_sets_ttl "mock" "k" "1" (Fin 9000) (Fin (-1)) 2000
              (setItemUntil "mock" "k" (JNum 1) (Fin 9000) 1000 ∅) Hg)
    as [H1 _].
  destruct (setExpire_sets_ttl "mock" "k" "1" (Fin 9000) (Fin 2) 2000
              (setItemUntil "mock" "k" (JNum 1) (Fin 9000) 1000 ∅) Hg)
    as [_ H2].
  split; [exact (H1 eq_refl 99000) |].
  split; [exact (H2 eq_refl 3999) | exact (H2 eq_refl 4000)].
Defined.

(** X5: a scan that evicts in the namespace leaves a foreign record. *)
Lemma facade_leaves_foreign_keys_witness :
  let s : gmap string string :=
    <["other" := "x"]> (<["mock.a" := "5:1"]> {["mock:next" := "5"]}) in
  clean "mock" 5000 s !! "mock.a" = None
  ∧ exec "mock" (@Clean json) 5000 s !! "other" = Some "x".
Proof.
  cbv zeta.
  assert (Hsw : startsWith (makeDataKey "mock" EmptyString) "other" = false)
    by reflexivity.
  assert (Hnk : "other" ≠ makeKey "mock" "next")
    by (vm_compute; discriminate).
  split; [vm_compute; reflexivity |].
  rewrite (@facade_leaves_foreign_keys decimal_numbers json codec "mock" Clean 5000
             (<["other" := "x"]> (<["mock.a" := "5:1"]> {["mock:next" := "5"]}))
             "other" Hsw Hnk).
  vm_compute. reflexivity.
Defined.

(** X6: a scan, a write to another key and a read, all before 9000. *)
Lemma entry_survives_until_expiry_witness :
  let s := setItemUntil "mock" "a" (JNum 1) (Fin 9000) 1000 ∅ in
  let calls := [(2000, Clean); (3000, SetItem "b" (JNum 2) (Fin 1));
                (8000, GetItem "b")] in
  run "mock" calls s !! "mock.a" = Some "9000:1".
Proof.
  cbv zeta.
  assert (Hraw : setItemUntil "mock" "a" (JNum 1) (Fin 9000) 1000 ∅
                 !! makeDataKey "mock" "a" = Some "9000:1")
    by (vm_compute; reflexivity).
  assert (He : decode_expireAt "9000:1" = Some (Fin 9000))
    by (vm_compute; reflexivity).
  assert (Hl : leaves_key "a" [(2000, Clean);
                               (3000, SetItem "b" (JNum 2) (Fin 1));
                               (8000, @GetItem json "b")] = true)
    by reflexivity.
  assert (Hf : forallb (λ c : Z * op json, checkFresh (Fin 9000) c.1)
                 [(2000, Clean); (3000, SetItem "b" (JNum 2) (Fin 1));
                  (8000, GetItem "b")] = true)
    by reflexivity.
  exact (@entry_survives_until_expiry decimal_numbers json codec "mock" "a" "9000:1" (Fin 9000)
           [(2000, Clean); (3000, SetItem "b" (JNum 2) (Fin 1));
            (8000, GetItem "b")]
           (setItemUntil "mock" "a" (JNum 1) (Fin 9000) 1000 ∅)
           Hraw He Hl Hf).
Defined.


(** X8: of an expired, a live and a malformed record, the scan keeps the
    live one. *)
Lemma scan_leaves_only_fresh_witness :
  let s : gmap string string :=
    <["mock.a" := "5000:1"]> (<["mock.b" := "9000:2"]>
      (<["mock.c" := "junk"]> {["mock:next" := "5000"]})) in
  clean "mock" 6000 s !! "mock.a" = None
  ∧ clean "mock" 6000 s !! "mock.c" = None
  ∧ clean "mock" 6000 s !! "mock.b" = Some "9000:2"
  ∧ ∃ e, decode_expireAt "9000:2" = Some e ∧ checkFresh e 6000 = true.
Proof.
  cbv zeta.
  set (s := <["mock.a" := "5000:1"]> (<["mock.b" := "9000:2"]>
              (<["mock.c" := "junk"]> ({["mock:next" := "5000"]}
                 : gmap string string)))).
  assert (Hnow : 1 <= 6000) by lia.
  assert (Hscan : num_gtb (getNext "mock" s) (Fin 6000) = false)
    by (vm_compute; reflexivity).
  assert (Hb : clean "mock" 6000 s !! makeDataKey "mock" "b" = Some "9000:2")
    by (vm_compute; reflexivity).
  split; [vm_compute; reflexivity |]. split; [vm_compute; reflexivity |].
  split; [exact Hb |].
  assert (Hk : "b" ≠ "__proto__") by discriminate.
  exact (proj2 (scan_leaves_only_fresh "mock" 6000 s "b" "9000:2"
                  Hk Hnow Hscan Hb)).
Defined.

(** X9: on a store that the facade built, under the fast path. *)
Lemma clean_misses_no_due_record_witness :
  let s := run "mock" [(1000, SetItemUntil "a" (JNum 1) (Fin 5000));
                       (1000, SetItemUntil "b" (JNum 2) (Fin 9000))] ∅ in
  consistent "mock" s = true
  ∧ construct "mock" 4000 s !! "mock.a" = Some "5000:1"
  ∧ checkFresh (Fin 5000) 4000 = true.
Proof.
  cbv zeta.
  set (s := run "mock" [(1000, SetItemUntil "a" (JNum 1) (Fin 5000));
                        (1000, SetItemUntil "b" (JNum 2) (Fin 9000))] ∅).
  assert (Hnow : 1 <= 4000) by lia.
  assert (Hc : consistent "mock" s = true) by (vm_compute; reflexivity).
  assert (Hraw : construct "mock" 4000 s !! makeDataKey "mock" "a"
                 = Some "5000:1") by (vm_compute; reflexivity).
  assert (He : decode_expireAt "5000:1" = Some (Fin 5000))
    by (vm_compute; reflexivity).
  split; [exact Hc |]. split; [exact Hraw |].
  assert (Hk : "a" ≠ "__proto__") by discriminate.
  exact (clean_misses_no_due_record "mock" 4000 s "a" "5000:1" (Fin 5000)
           Hk Hnow Hc Hraw He eq_refl).
Defined.

(** X10: readable at 5000, hence at 1000; expired at 1000, hence [null] at
    5000. *)
Lemma readable_earlier_witness :
  let s1 : gmap string string := {["mock.k" := "9000:1"]} in
  let s2 : gmap string string := {["mock.k" := "500:1"]} in
  get_ "mock" "k" 1000 s1 = get_ "mock" "k" 5000 s1
  ∧ (getItem "mock" "k" 5000 s2).1 = JNull.
Proof.
  cbv zeta.
  assert (Hle : 1000 <= 5000) by lia.
  assert (H1 : item (get_ "mock" "k" 5000 {["mock.k" := "9000:1"]}) ≠ None)
    by (vm_compute; discriminate).
  assert (H2 : item (get_ "mock" "k" 1000 {["mock.k" := "500:1"]}) = None)
    by (vm_compute; reflexivity).
  split.
  - exact (proj1 (@readable_earlier decimal_numbers json codec "mock" "k" 1000 5000
                    {["mock.k" := "9000:1"]} Hle) H1).
  - exact (proj2 (@readable_earlier decimal_numbers json codec "mock" "k" 1000 5000
                    {["mock.k" := "500:1"]} Hle) H2).
Defined.

(** X11: a scan, a write to another key and a removal in between. *)
Lemma reads_unaffected_by_other_calls_witness :
  let s := setItemUntil "mock" "a" (JNum 1) (Fin 9000) 1000
             {["mock.z" := "10:0"]} in
  let calls := [(2000, Clean); (3000, SetItem "b" (JNum 2) (Fin 1));
                (4000, RemoveItem "z")] in
  (getItem "mock" "a" 5000 s).1 = JNum 1
  ∧ (getItem "mock" "a" 5000 (run "mock" calls s)).1 = JNum 1.
Proof.
  cbv zeta.
  set (s := setItemUntil "mock" "a" (JNum 1) (Fin 9000) 1000
              {["mock.z" := "10:0"]}).
  assert (Hl : leaves_key "a" [(2000, Clean);
                               (3000, SetItem "b" (JNum 2) (Fin 1));
                               (4000, @RemoveItem json "z")] = true)
    by reflexivity.
  assert (Ht : forallb (λ c : Z * op json, c.1 <=? 5000)
                 [(2000, Clean); (3000, SetItem "b" (JNum 2) (Fin 1));
                  (4000, RemoveItem "z")] = true)
    by reflexivity.
  assert (Hs : (getItem "mock" "a" 5000 s).1 = JNum 1)
    by (vm_compute; reflexivity).
  split; [exact Hs |].
  rewrite (@reads_unaffected_by_other_calls decimal_numbers json codec "mock" "a" 5000
             [(2000, Clean); (3000, SetItem "b" (JNum 2) (Fin 1));
              (4000, RemoveItem "z")] s Hl Ht).
  exact Hs.
Defined.

(** X12: a value that does not serialise, and a past expiration. *)
Lemma stringify_failure_is_noop_witness :
  let s : gmap string string := {["mock.k" := "9000:1"]} in
  setItemUntil "mock" "k" CyclicJSON.Cyclic (Fin 5) 1000 s = s
  ∧ setItem "mock" "k" CyclicJSON.Cyclic (Fin 0) 1000 s = s
  ∧ updateItem "mock" "k" CyclicJSON.Cyclic 1000 s = s.
Proof.
  cbv zeta.
  assert (Hv : JSON_stringify CyclicJSON.Cyclic = Thrown) by reflexivity.
  exact (@stringify_failure_is_noop decimal_numbers CyclicJSON.jsvalue CyclicJSON.codec
           "mock" "k" CyclicJSON.Cyclic (Fin 5) (Fin 0) 1000
           {["mock.k" := "9000:1"]} Hv).
Defined.

(** X14: the stores [app] and [app.cache] on one underlying store. *)
Lemma nested_namespace_sentinel_evicted_witness :
  let s := setItemUntil "app.cache" "k" (JNum 1) (Fin 9000) 1000
             (setItemUntil "app" "x" (JNum 2) (Fin 4000) 1000 ∅) in
  sentinel "app.cache" s = Some "9000"
  ∧ sentinel "app.cache" (clean "app" 6000 s) = None.
Proof.
  cbv zeta.
  set (s := setItemUntil "app.cache" "k" (JNum 1) (Fin 9000) 1000
              (setItemUntil "app" "x" (JNum 2) (Fin 4000) 1000 ∅)).
  assert (Hnow : 1 <= 6000) by lia.
  assert (Hscan : num_gtb (getNext "app" s) (Fin 6000) = false)
    by (vm_compute; reflexivity).
  assert (Hsv : sentinel ("app" +:+ "." +:+ "cache") s = Some "9000")
    by (vm_compute; reflexivity).
  assert (Hcolon : indexOf ":" "9000" < 1) by (vm_compute; reflexivity).
  split; [exact Hsv |].
  exact (proj2 (nested_namespace_sentinel_evicted "app" "cache" "9000" 6000 s
                  Hnow Hscan Hsv Hcolon)).
Defined.

(** X15: removing first changes nothing of the write. *)
Lemma write_overrides_remove_witness :
  let s : gmap string string := {["mock.k" := "9000:1"]} in
  setItemUntil "mock" "k" (JNum 2) (Fin 5000) 1000
    (removeItem "mock" "k" 1000 s)
  = setItemUntil "mock" "k" (JNum 2) (Fin 5000) 1000 s.
Proof.
  cbv zeta.
  assert (Hv : JSON_stringify (JNum 2) = Returned "2")
    by (vm_compute; reflexivity).
  exact (proj1 (@write_overrides_remove decimal_numbers json codec "mock" "k" "2" (JNum 2)
                  (Fin 5000) 1000 1000 {["mock.k" := "9000:1"]} Hv)).
Defined.


(** X19: an expired record and no sentinel; a sentinel that is no number. *)
Lemma clean_without_sentinel_witness :
  let s1 : gmap string string := {["mock.a" := "5:1"]} in
  let s2 : gmap string string := <["mock:next" := "soon"]> s1 in
  clean "mock" 1000 s1 = s1 ∧ clean "mock" 1000 s2 = s2.
Proof.
  cbv zeta.
  assert (H1 : sentinel "mock" {["mock.a" := "5:1"]} = None)
    by (vm_compute; reflexivity).
  assert (H2 : sentinel "mock" (<["mock:next" := "soon"]> {["mock.a" := "5:1"]})
               = Some "soon") by (vm_compute; reflexivity).
  assert (H3 : Number_of_string "soon" = NaN) by (vm_compute; reflexivity).
  split.
  - exact (proj2 (clean_without_sentinel "mock" 1000 {["mock.a" := "5:1"]}
                    (or_introl H1))).
  - exact (proj2 (clean_without_sentinel "mock" 1000
                    (<["mock:next" := "soon"]> {["mock.a" := "5:1"]})
                    (or_intror (ex_intro _ "soon"
                                  (conj H2 (or_introl H3)))))).
Defined.

(** X20: expired at 1000, [null] at 2000 after a write to another key. *)
Lemma no_resurrection_witness :
  let s : gmap string string := {["mock.k" := "500:1"]} in
  (getItem "mock" "k" 2000
     (run "mock" [(1500, SetItem "other" (JNum 2) (Fin 10))] s)).1 = JNull.
Proof.
  cbv zeta.
  assert (Hn : item (get_ "mock" "k" 1000 {["mock.k" := "500:1"]}) = None)
    by (vm_compute; reflexivity).
  assert (Hle : 1000 <= 2000) by lia.
  assert (Hl : leaves_key "k" [(1500, SetItem "other" (JNum 2) (Fin 10))]
               = true) by reflexivity.
  exact (@no_resurrection decimal_numbers json codec "mock" "k" 1000 2000
           [(1500, SetItem "other" (JNum 2) (Fin 10))]
           {["mock.k" := "500:1"]} Hn Hle Hl).
Defined.
